(** * X Post Manager: post lifecycle and scheduling engine

    A shallow embedding of the web server of the repository (the express
    handlers under [/api], the scheduler and the post generator) together
    with the properties of its post lifecycle, topic registry and schedule
    computation.

    Every handler is modelled as a function from the server state to a
    response and a new state.  A handler runs to completion: the replies of
    the external collaborators (the completion backend, the X client) and
    the readings of the clock and of [Math.random] are arguments of the
    handler that consumes them. *)

From Stdlib Require Import ZArith String Ascii List Bool QArith Qround DecimalString Lia.
From Stdlib Require Import Permutation Sorted.
Import ListNotations.
Local Open Scope string_scope.
Local Open Scope Z_scope.

(* ===================================================================== *)
(** * The JavaScript built-ins the server relies on *)
(* ===================================================================== *)

Module JS.

(** A string is the sequence of its UTF-16 code units; a character of
    [string] stands for the code unit of the same number, so the strings
    here are those whose code units are all below 256.

    White space as [String.prototype.trim], the class [\s] and
    string-to-number conversion see it: among the code units below 256 these
    are TAB, LF, VT, FF, CR, space and the no-break space U+00A0. *)
Definition isSpace (c : ascii) : bool :=
  let n := nat_of_ascii c in
  ((n =? 32) || ((9 <=? n) && (n <=? 13)) || (n =? 160))%nat.

Fixpoint trimStart (s : string) : string :=
  match s with
  | EmptyString => EmptyString
  | String c r => if isSpace c then trimStart r else s
  end.

Fixpoint trimEnd (s : string) : string :=
  match s with
  | EmptyString => EmptyString
  | String c r =>
      match trimEnd r with
      | EmptyString => if isSpace c then EmptyString else String c EmptyString
      | r' => String c r'
      end
  end.

Definition trim (s : string) : string := trimEnd (trimStart s).

(** Truthiness of a string value, and of a possibly [undefined] one. *)
Definition truthy (s : string) : bool := negb (s =? "")%string.

Definition truthy_opt (o : option string) : bool :=
  match o with
  | Some s => truthy s
  | None => false
  end.

(** [s.slice(0, n)] *)
Definition slice0 (n : nat) (s : string) : string := substring 0 n s.

(** [s.split(sep)] for a one-character separator. *)
Fixpoint split (sep : ascii) (s : string) : list string :=
  match s with
  | EmptyString => [EmptyString]
  | String c r =>
      if Ascii.eqb c sep then EmptyString :: split sep r
      else match split sep r with
           | h :: t => String c h :: t
           | [] => [String c EmptyString]
           end
  end.

(** The numbers the schedule computation meets: [NaN] or an integer. *)
Inductive number := NaN | Num (z : Z).

Definition digit (c : ascii) : option Z :=
  let n := nat_of_ascii c in
  if ((48 <=? n) && (n <=? 57))%nat then Some (Z.of_nat (n - 48)) else None.

Fixpoint digits (acc : Z) (s : string) : number :=
  match s with
  | EmptyString => Num acc
  | String c r =>
      match digit c with
      | Some d => digits (10 * acc + d) r
      | None => NaN
      end
  end.

(** [Number(s)] on the strings a [HH:MM] field is made of: surrounding
    white space is dropped, the empty string is 0, a run of decimal digits is
    its value.  Signed, fractional, exponent and radix-prefixed literals and
    [Infinity] are outside this fragment: they are read as [NaN] here, which
    is not their value.  A result [Num z] is given by the strings of the
    fragment only, and is then the value [Number] returns; the statements
    that depend on a parsed number ask for such a result. *)
Definition Number (s : string) : number := digits 0 (trim s).

(** [x || d] where [x] is a destructured array element: [undefined], [NaN]
    and [0] are falsy. *)
Definition orDefault (x : option number) (d : Z) : Z :=
  match x with
  | Some (Num z) => if z =? 0 then d else z
  | _ => d
  end.

(** [Math.floor(rnd * n)] for a reading [rnd] of [Math.random()]. *)
Definition randomIndex (rnd : Q) (n : nat) : Z :=
  Qfloor (rnd * inject_Z (Z.of_nat n)).

(** [a[i]]: [undefined] outside the array. *)
Definition at_ {A : Type} (a : list A) (i : Z) : option A :=
  if i <? 0 then None else nth_error a (Z.to_nat i).

(** [n.toString()] for an integer. *)
Definition toString (n : Z) : string := NilZero.string_of_int (Z.to_int n).

(** A thrown value, as the handlers' [catch] blocks tell them apart. *)
Inductive thrown := Error (message : string) | NonError.

(** [error instanceof Error ? error.message : 'Unknown error'] *)
Definition errorMessage (e : thrown) : string :=
  match e with
  | Error m => m
  | NonError => "Unknown error"
  end.

(** What reading a property of [undefined] throws. *)
Definition TypeError_undefined (prop : string) : thrown :=
  Error ("Cannot read properties of undefined (reading '" ++ prop ++ "')").

(** [Map<string, V>]: an association list in insertion order. *)
Module Map.

Definition t (V : Type) : Type := list (string * V).

Section Ops.
Context {V : Type}.

Fixpoint get (k : string) (m : t V) : option V :=
  match m with
  | [] => None
  | (k', v) :: r => if (k =? k')%string then Some v else get k r
  end.

(** [set] keeps the position of a key that is already there. *)
Fixpoint set (k : string) (v : V) (m : t V) : t V :=
  match m with
  | [] => [(k, v)]
  | (k', v') :: r =>
      if (k =? k')%string then (k, v) :: r else (k', v') :: set k v r
  end.

Definition has (k : string) (m : t V) : bool :=
  match get k m with
  | Some _ => true
  | None => false
  end.

(** [delete] returns whether the key was there; [remove] is the map left. *)
Fixpoint remove (k : string) (m : t V) : t V :=
  match m with
  | [] => []
  | (k', v) :: r => if (k =? k')%string then r else (k', v) :: remove k r
  end.

Definition values (m : t V) : list V := List.map snd m.

End Ops.
End Map.

End JS.

(* ===================================================================== *)
(** * Data model *)
(* ===================================================================== *)

Module Topic.
Record t := { id : string; name : string; createdAt : Z; isActive : bool }.

Definition toggled (x : t) : t :=
  {| id := id x; name := name x; createdAt := createdAt x;
     isActive := negb (isActive x) |}.
End Topic.

Inductive Status := pending | approved | rejected.

Definition Status_eqb (a b : Status) : bool :=
  match a, b with
  | pending, pending | approved, approved | rejected, rejected => true
  | _, _ => false
  end.

Definition Status_to_string (s : Status) : string :=
  match s with
  | pending => "pending"
  | approved => "approved"
  | rejected => "rejected"
  end.

(** The optional [scheduledFor] field of the interface is never assigned by
    the server and is left out. *)
Module PendingPost.
Record t := {
  id : string;
  content : string;
  topic : option string;
  timestamp : Z;
  status : Status
}.

Definition with_status (s : Status) (p : t) : t :=
  {| id := id p; content := content p; topic := topic p;
     timestamp := timestamp p; status := s |}.
End PendingPost.

Module Schedule.
Record t := {
  frequency : string;
  time : string;
  timezone : string;
  isActive : bool
}.
End Schedule.

(** Timers of the event loop.  The callback of a timer is fixed by its
    kind: the first-run timeout generates a post and then sets up the
    recurring schedule; the recurring interval generates a post. *)
Module Timer.
Inductive kind := FirstRun | Recurring.
Record t := { handle : nat; what : kind; armedAt : Z; delay : Z }.
End Timer.

(** The process environment ([EnvSchema]) and the time-zone data of the
    host: [zoneOffset tz now] is the offset of zone [tz] from UTC at the
    instant [now], in milliseconds, when the host knows the zone;
    [localTZA t isUTC] is the language's [LocalTZA] for the zone of the host
    process itself: the offset of its local time from UTC, in milliseconds,
    at the instant [t] when [isUTC] holds, at the local reading [t]
    otherwise. *)
Record Env := {
  OPENROUTER_API_KEY : option string;
  TWITTER_APP_KEY : option string;
  TWITTER_APP_SECRET : option string;
  TWITTER_ACCESS_TOKEN : option string;
  TWITTER_ACCESS_SECRET : option string;
  zoneOffset : string -> Z -> option Z;
  localTZA : Z -> bool -> Z
}.

(** The server state: the three stores, the scheduler's handle, the live
    timers of the event loop, and the texts handed to [postToX] so far. *)
Record State := {
  topics : JS.Map.t Topic.t;
  pendingPosts : JS.Map.t PendingPost.t;
  schedule : Schedule.t;
  scheduleInterval : option nat;
  timers : list Timer.t;
  nextHandle : nat;
  publishCalls : list string
}.

Definition initialSchedule : Schedule.t :=
  {| Schedule.frequency := "daily"; Schedule.time := "09:00";
     Schedule.timezone := "UTC"; Schedule.isActive := true |}.

Definition initialState : State :=
  {| topics := []; pendingPosts := []; schedule := initialSchedule;
     scheduleInterval := None; timers := []; nextHandle := 0%nat;
     publishCalls := [] |}.

Definition set_topics (m : JS.Map.t Topic.t) (st : State) : State :=
  {| topics := m; pendingPosts := pendingPosts st; schedule := schedule st;
     scheduleInterval := scheduleInterval st; timers := timers st;
     nextHandle := nextHandle st; publishCalls := publishCalls st |}.

Definition set_pendingPosts (m : JS.Map.t PendingPost.t) (st : State) : State :=
  {| topics := topics st; pendingPosts := m; schedule := schedule st;
     scheduleInterval := scheduleInterval st; timers := timers st;
     nextHandle := nextHandle st; publishCalls := publishCalls st |}.

Definition set_schedule (s : Schedule.t) (st : State) : State :=
  {| topics := topics st; pendingPosts := pendingPosts st; schedule := s;
     scheduleInterval := scheduleInterval st; timers := timers st;
     nextHandle := nextHandle st; publishCalls := publishCalls st |}.

Definition set_publishCalls (l : list string) (st : State) : State :=
  {| topics := topics st; pendingPosts := pendingPosts st;
     schedule := schedule st; scheduleInterval := scheduleInterval st;
     timers := timers st; nextHandle := nextHandle st; publishCalls := l |}.

(** What a handler sends back with [res.json]. *)
Inductive Response :=
| Failure (error : string)
| Success
| SuccessTopic (topic : Topic.t)
| SuccessSchedule (s : Schedule.t)
| SuccessId (id : string)
| SuccessPost (post : PendingPost.t)
| TopicList (l : list Topic.t)
| PostList (l : list PendingPost.t)
| ScheduleIs (s : Schedule.t).

(* ===================================================================== *)
(** * Content generation and publishing *)
(* ===================================================================== *)

(** The reply of [chat.completions.create]: the call rejects, or resolves to
    a response whose first choice may carry a text. *)
Inductive Completion := Rejects (e : JS.thrown) | Resolves (text : option string).

(** The reply of [rw.v2.tweet]. *)
Inductive Tweet := Tweeted (id : string) | TweetFails (e : JS.thrown).

(** The outcome of an [async] function: a value or a rejection. *)
Inductive Outcome (A : Type) := Returns (a : A) | Throws (e : JS.thrown).
Arguments Returns {A} a.
Arguments Throws {A} e.

Definition openRouterClient (env : Env) : bool :=
  JS.truthy_opt (OPENROUTER_API_KEY env).

Definition createTwitterClient (env : Env) : bool :=
  forallb JS.truthy_opt
    [TWITTER_APP_KEY env; TWITTER_APP_SECRET env;
     TWITTER_ACCESS_TOKEN env; TWITTER_ACCESS_SECRET env].

Definition fallbackText (subject : string) : string :=
  "Tip: " ++ subject
  ++ ". Keep it short, specific, and actionable. Focus on one insight, avoid fluff.".

(** [text.length > 280 ? text.slice(0, 279) : text] *)
Definition clip (text : string) : string :=
  if (280 <? String.length text)%nat then JS.slice0 279 text else text.

(** [topic || 'a useful dev tip'] *)
Definition subjectOf (topic : option string) : string :=
  match topic with
  | Some t => if JS.truthy t then t else "a useful dev tip"
  | None => "a useful dev tip"
  end.

Definition generatePost (env : Env) (reply : Completion) (topic : option string)
  : Outcome string :=
  let subject := subjectOf topic in
  if negb (openRouterClient env) then Returns (clip (fallbackText subject))
  else
    match reply with
    | Rejects e => Throws e
    | Resolves c =>
        let text := match c with Some s => JS.trim s | None => "" end in
        Returns (clip text)
    end.

(** [postToX] of the server never rejects: it reports through its result. *)
Inductive PublishResult := Published (id : string) | NotPublished (error : string).

Definition postToX (env : Env) (reply : Tweet) : PublishResult :=
  if negb (createTwitterClient env) then NotPublished "X API credentials not configured"
  else
    match reply with
    | Tweeted i => Published i
    | TweetFails e => NotPublished (JS.errorMessage e)
    end.

(* ===================================================================== *)
(** * Topic registry: the [/api/topics] handlers *)
(* ===================================================================== *)

(** [Array.prototype.sort] with the comparator [(a, b) => key(b) - key(a)]:
    a stable sort, largest key first. *)
Section Sorting.
Context {A : Type} (key : A -> Z).

Fixpoint insertDesc (x : A) (l : list A) : list A :=
  match l with
  | [] => [x]
  | y :: r => if key y <=? key x then x :: l else y :: insertDesc x r
  end.

Definition sortDesc (l : list A) : list A := fold_right insertDesc [] l.
End Sorting.

(** [POST /api/topics].  [name] is the body field, [None] when absent;
    [now] is the reading of [Date.now()] and [ts] that of [new Date()]. *)
Definition post_api_topics (name : option string) (now ts : Z) (st : State)
  : Response * State :=
  match name with
  | None => (Failure "Topic name required", st)
  | Some name =>
      if negb (JS.truthy name) then (Failure "Topic name required", st)
      else
        let topicId := JS.toString now in
        let topic :=
          {| Topic.id := topicId; Topic.name := name; Topic.createdAt := ts;
             Topic.isActive := true |} in
        (SuccessTopic topic, set_topics (JS.Map.set topicId topic (topics st)) st)
  end.

Definition get_api_topics (st : State) : Response * State :=
  (TopicList (sortDesc Topic.createdAt (JS.Map.values (topics st))), st).

Definition post_api_topics_toggle (id : string) (st : State) : Response * State :=
  if negb (JS.truthy id) then (Failure "Topic ID required", st)
  else
    match JS.Map.get id (topics st) with
    | None => (Failure "Topic not found", st)
    | Some topic =>
        let topic := Topic.toggled topic in
        (SuccessTopic topic, set_topics (JS.Map.set id topic (topics st)) st)
    end.

Definition delete_api_topics (id : string) (st : State) : Response * State :=
  if negb (JS.truthy id) then (Failure "Topic ID required", st)
  else if negb (JS.Map.has id (topics st)) then (Failure "Topic not found", st)
  else (Success, set_topics (JS.Map.remove id (topics st)) st).

(* ===================================================================== *)
(** * Post lifecycle: the [/api/posts] handlers *)
(* ===================================================================== *)

(** [GET /api/posts?status=] *)
Definition get_api_posts (status : option string) (st : State) : Response * State :=
  let posts := JS.Map.values (pendingPosts st) in
  let posts :=
    match status with
    | Some s =>
        if JS.truthy s
        then filter (fun post => (Status_to_string (PendingPost.status post) =? s)%string) posts
        else posts
    | None => posts
    end in
  (PostList (sortDesc PendingPost.timestamp posts), st).

(** [POST /api/posts/:id/approve].  [reply] is what the X client answers if
    it is asked. *)
Definition post_api_posts_approve (env : Env) (id : string) (reply : Tweet) (st : State)
  : Response * State :=
  if negb (JS.truthy id) then (Failure "Post ID required", st)
  else
    match JS.Map.get id (pendingPosts st) with
    | None => (Failure "Post not found", st)
    | Some post =>
        let st := set_publishCalls (publishCalls st ++ [PendingPost.content post]) st in
        match postToX env reply with
        | Published rid =>
            let post := PendingPost.with_status approved post in
            (SuccessId rid, set_pendingPosts (JS.Map.set id post (pendingPosts st)) st)
        | NotPublished error => (Failure error, st)
        end
    end.

(** [POST /api/posts/:id/reject] *)
Definition post_api_posts_reject (id : string) (st : State) : Response * State :=
  if negb (JS.truthy id) then (Failure "Post ID required", st)
  else
    match JS.Map.get id (pendingPosts st) with
    | None => (Failure "Post not found", st)
    | Some post =>
        let post := PendingPost.with_status rejected post in
        (Success, set_pendingPosts (JS.Map.set id post (pendingPosts st)) st)
    end.

(* ===================================================================== *)
(** * Generation: [/api/generate-post] and the scheduled generator *)
(* ===================================================================== *)

Definition noActiveTopics : string :=
  "No active topics found. Please add and enable some topics first.".

(** The body shared by the handler and by [generateScheduledPost], up to the
    store: the active topics, the random pick, the text, the new post.
    [sendEmailNotification] follows in both; it catches its own failures and
    touches none of the stores, so it leaves no trace here. *)
Definition generateFrom (env : Env) (now ts : Z) (rnd : Q) (reply : Completion)
  (st : State) : Outcome (option (PendingPost.t * State)) :=
  let activeTopics := filter Topic.isActive (JS.Map.values (topics st)) in
  if (List.length activeTopics =? 0)%nat then Returns None
  else
    match JS.at_ activeTopics (JS.randomIndex rnd (List.length activeTopics)) with
    | None => Throws (JS.TypeError_undefined "name")
    | Some randomTopic =>
        match generatePost env reply (Some (Topic.name randomTopic)) with
        | Throws e => Throws e
        | Returns content =>
            let postId := JS.toString now in
            let post :=
              {| PendingPost.id := postId; PendingPost.content := content;
                 PendingPost.topic := Some (Topic.name randomTopic);
                 PendingPost.timestamp := ts; PendingPost.status := pending |} in
            Returns (Some (post, set_pendingPosts (JS.Map.set postId post (pendingPosts st)) st))
        end
    end.

(** [POST /api/generate-post] *)
Definition post_api_generate_post (env : Env) (now ts : Z) (rnd : Q)
  (reply : Completion) (st : State) : Response * State :=
  match generateFrom env now ts rnd reply st with
  | Returns None => (Failure noActiveTopics, st)
  | Returns (Some (post, st')) => (SuccessPost post, st')
  | Throws e => (Failure (JS.errorMessage e), st)
  end.

(** [generateScheduledPost]: the same steps, every failure logged only. *)
Definition generateScheduledPost (env : Env) (now ts : Z) (rnd : Q)
  (reply : Completion) (st : State) : State :=
  match generateFrom env now ts rnd reply st with
  | Returns (Some (_, st')) => st'
  | _ => st
  end.

(* ===================================================================== *)
(** * Scheduler *)
(* ===================================================================== *)

Definition msPerMinute : Z := 60 * 1000.
Definition msPerHour : Z := 60 * 60 * 1000.
Definition msPerDay : Z := 24 * 60 * 60 * 1000.

(** A [Date] holds a time value, milliseconds from the epoch in UTC; its
    local fields are read and set on the local time line of the host
    process, [LocalTime] of the time value.  The definitions below, up to
    [nextDate], work on a reading of that local time line. *)
Definition startOfDay (t : Z) : Z := t - t mod msPerDay.

Definition getHours (t : Z) : Z := (t mod msPerDay) / msPerHour.
Definition getMinutes (t : Z) : Z := (t mod msPerHour) / msPerMinute.

(** [d.setHours(hours, minutes, 0, 0)] *)
Definition setHours (t hours minutes : Z) : Z :=
  startOfDay t + hours * msPerHour + minutes * msPerMinute.

(** [d.setDate(d.getDate() + 1)] *)
Definition nextDate (t : Z) : Z := t + msPerDay.

(** [LocalTime(t)] and [UTC(t)] of the language: between a time value and
    the reading of the host's local time line. *)
Definition LocalTime (env : Env) (t : Z) : Z := t + localTZA env t true.
Definition UTC (env : Env) (t : Z) : Z := t - localTZA env t false.

(** [TimeClip]: a time value more than 8.64e15 ms from the epoch is [NaN],
    the time value of an Invalid Date, here [None]. *)
Definition maxTime : Z := 8640000000000000.

Definition TimeClip (t : Z) : option Z :=
  if Z.abs t <=? maxTime then Some t else None.

(** [now.toLocaleString("en-US", {timeZone})]: the wall clock of the zone at
    [now], to the second, which [new Date] then reads as a local time of the
    host (the rendering reads back as the same fields for a year of four
    digits); [None] when the zone is unknown, where [toLocaleString] throws
    a [RangeError]. *)
Definition userTimeAt (env : Env) (timezone : string) (now : Z) : option Z :=
  match zoneOffset env timezone now with
  | Some offset => Some ((now + offset) / 1000 * 1000)
  | None => None
  end.

(** [schedule.time.split(':').map(Number)], destructured as
    [[hours, minutes]]. *)
Definition parseTime (time : string) : option JS.number * option JS.number :=
  let parts := List.map JS.Number (JS.split ":"%char time) in
  (nth_error parts 0, nth_error parts 1).

(** The reading the first run is aimed at, computed on the local time line
    alone: what [nextRunOn] below comes to on a host whose zone keeps one
    offset. *)
Definition nextRunAt (time : string) (userTime : Z) : Z :=
  let '(hours, minutes) := parseTime time in
  let nextRun := setHours userTime (JS.orDefault hours 9) (JS.orDefault minutes 0) in
  if nextRun <=? userTime then nextDate nextRun else nextRun.

(** The time value of [nextRun] after
    [nextRun.setHours(hours || 9, minutes || 0, 0, 0)] and, when
    [nextRun <= userTime], [nextRun.setDate(nextRun.getDate() + 1)], from the
    time value of [userTime]; [None] is the Invalid Date, which compares
    false and is left as it is. *)
Definition nextRunOn (env : Env) (time : string) (userTime : Z) : option Z :=
  let '(hours, minutes) := parseTime time in
  match TimeClip (UTC env (setHours (LocalTime env userTime)
                             (JS.orDefault hours 9) (JS.orDefault minutes 0))) with
  | None => None
  | Some nextRun =>
      if nextRun <=? userTime
      then TimeClip (UTC env (nextDate (LocalTime env nextRun)))
      else Some nextRun
  end.

Definition set_timers (l : list Timer.t) (st : State) : State :=
  {| topics := topics st; pendingPosts := pendingPosts st;
     schedule := schedule st; scheduleInterval := scheduleInterval st;
     timers := l; nextHandle := nextHandle st; publishCalls := publishCalls st |}.

(** The timer of handle [h], if live, leaves the event loop. *)
Definition dropTimer (h : nat) (st : State) : State :=
  set_timers (filter (fun t => negb (Timer.handle t =? h)%nat) (timers st)) st.

(** [clearInterval(h)] *)
Definition clearInterval (h : nat) (st : State) : State := dropTimer h st.

(** The delay a Node timer runs with: one outside [[1, 2^31 - 1]] is
    replaced by 1. *)
Definition TIMEOUT_MAX : Z := 2147483647.

Definition effectiveDelay (delay : Z) : Z :=
  if (1 <=? delay) && (delay <=? TIMEOUT_MAX) then delay else 1.

(** [setTimeout] and [setInterval]: a fresh handle, one more live timer,
    which runs with the effective delay. *)
Definition arm (what : Timer.kind) (now delay : Z) (st : State) : nat * State :=
  let h := nextHandle st in
  (h,
   {| topics := topics st; pendingPosts := pendingPosts st;
      schedule := schedule st; scheduleInterval := scheduleInterval st;
      timers := timers st ++ [{| Timer.handle := h; Timer.what := what;
                                 Timer.armedAt := now;
                                 Timer.delay := effectiveDelay delay |}];
      nextHandle := S (nextHandle st); publishCalls := publishCalls st |}).

Definition set_scheduleInterval (h : option nat) (st : State) : State :=
  {| topics := topics st; pendingPosts := pendingPosts st;
     schedule := schedule st; scheduleInterval := h; timers := timers st;
     nextHandle := nextHandle st; publishCalls := publishCalls st |}.

(** [startScheduler].  The handle returned by [setTimeout] is dropped, as in
    the source; the second component is what the call throws, if it does:
    the [RangeError] of [toLocaleString] on an unknown zone, or that of
    [nextRun.toISOString()], evaluated for the log entry before the timer is
    armed, on an Invalid Date. *)
Definition startScheduler (env : Env) (now : Z) (st : State)
  : State * option JS.thrown :=
  let st :=
    match scheduleInterval st with
    | Some h => clearInterval h st
    | None => st
    end in
  if negb (Schedule.isActive (schedule st)) then (st, None)
  else
    match userTimeAt env (Schedule.timezone (schedule st)) now with
    | None =>
        (st, Some (JS.Error ("Invalid time zone specified: "
                             ++ Schedule.timezone (schedule st))))
    | Some wall =>
        match TimeClip (UTC env wall) with
        | None => (st, Some (JS.Error "Invalid time value"))
        | Some userTime =>
            match nextRunOn env (Schedule.time (schedule st)) userTime with
            | None => (st, Some (JS.Error "Invalid time value"))
            | Some nextRun =>
                let delay := nextRun - userTime in
                (snd (arm Timer.FirstRun now delay st), None)
            end
        end
    end.

Definition intervalMs (frequency : string) : Z :=
  if (frequency =? "daily")%string then 24 * 60 * 60 * 1000
  else if (frequency =? "weekly")%string then 7 * 24 * 60 * 60 * 1000
  else if (frequency =? "monthly")%string then 30 * 24 * 60 * 60 * 1000
  else 24 * 60 * 60 * 1000.

(** [setupRecurringSchedule] *)
Definition setupRecurringSchedule (now : Z) (st : State) : State :=
  if negb (Schedule.isActive (schedule st)) then st
  else
    let '(h, st) := arm Timer.Recurring now (intervalMs (Schedule.frequency (schedule st))) st in
    set_scheduleInterval (Some h) st.

(** The event loop runs the callback of the live timer [h]: a first-run
    timeout is spent, generates and sets up the recurring schedule; a
    recurring interval generates and stays live. *)
Definition fire (env : Env) (h : nat) (now ts : Z) (rnd : Q) (reply : Completion)
  (st : State) : State :=
  match find (fun t => (Timer.handle t =? h)%nat) (timers st) with
  | None => st
  | Some t =>
      match Timer.what t with
      | Timer.FirstRun =>
          let st := dropTimer h st in
          let st := generateScheduledPost env now ts rnd reply st in
          setupRecurringSchedule now st
      | Timer.Recurring => generateScheduledPost env now ts rnd reply st
      end
  end.

(** [POST /api/schedule] *)
Definition post_api_schedule (env : Env) (frequency time timezone : option string)
  (now : Z) (st : State) : Response * State :=
  match frequency, time, timezone with
  | Some frequency, Some time, Some timezone =>
      if negb (JS.truthy frequency && JS.truthy time && JS.truthy timezone)
      then (Failure "Frequency, time, and timezone required", st)
      else
        let s :=
          {| Schedule.frequency := frequency; Schedule.time := time;
             Schedule.timezone := timezone;
             Schedule.isActive := Schedule.isActive (schedule st) |} in
        let st := set_schedule s st in
        match startScheduler env now st with
        | (st, None) => (SuccessSchedule (schedule st), st)
        | (st, Some e) => (Failure (JS.errorMessage e), st)
        end
  | _, _, _ => (Failure "Frequency, time, and timezone required", st)
  end.

Definition get_api_schedule (st : State) : Response * State :=
  (ScheduleIs (schedule st), st).

(** [app.listen]'s callback: the scheduler starts with the server. *)
Definition listen (env : Env) (now : Z) (st : State) : State :=
  fst (startScheduler env now st).

(* ===================================================================== *)
(** * The server as a transition system *)
(* ===================================================================== *)

Inductive Request :=
| AddTopic (name : option string) (now ts : Z)
| ListTopics
| ToggleTopic (id : string)
| DeleteTopic (id : string)
| UpdateSchedule (frequency time timezone : option string) (now : Z)
| GetSchedule
| ListPosts (status : option string)
| Approve (id : string) (reply : Tweet)
| Reject (id : string)
| Generate (now ts : Z) (rnd : Q) (reply : Completion).

Definition handle (env : Env) (r : Request) (st : State) : Response * State :=
  match r with
  | AddTopic name now ts => post_api_topics name now ts st
  | ListTopics => get_api_topics st
  | ToggleTopic id => post_api_topics_toggle id st
  | DeleteTopic id => delete_api_topics id st
  | UpdateSchedule f t z now => post_api_schedule env f t z now st
  | GetSchedule => get_api_schedule st
  | ListPosts status => get_api_posts status st
  | Approve id reply => post_api_posts_approve env id reply st
  | Reject id => post_api_posts_reject id st
  | Generate now ts rnd reply => post_api_generate_post env now ts rnd reply st
  end.

(** What the event loop delivers: a request, or a timer coming due. *)
Inductive Event :=
| Req (r : Request)
| Fire (h : nat) (now ts : Z) (rnd : Q) (reply : Completion).

Definition step (env : Env) (e : Event) (st : State) : State :=
  match e with
  | Req r => snd (handle env r st)
  | Fire h now ts rnd reply => fire env h now ts rnd reply st
  end.

Definition run (env : Env) (es : list Event) (st : State) : State :=
  fold_left (fun st e => step env e st) es st.

(* ===================================================================== *)
(** * Notions used in the statements *)
(* ===================================================================== *)

Definition activeTopics (st : State) : list Topic.t :=
  filter Topic.isActive (JS.Map.values (topics st)).

(** The post [generateFrom] builds from a topic and a text. *)
Definition newPost (now ts : Z) (t : Topic.t) (content : string) : PendingPost.t :=
  {| PendingPost.id := JS.toString now; PendingPost.content := content;
     PendingPost.topic := Some (Topic.name t);
     PendingPost.timestamp := ts; PendingPost.status := pending |}.

Definition store (post : PendingPost.t) (st : State) : State :=
  set_pendingPosts (JS.Map.set (PendingPost.id post) post (pendingPosts st)) st.

(** The status stored under [id], if a post is. *)
Definition statusOf (id : string) (st : State) : option Status :=
  option_map PendingPost.status (JS.Map.get id (pendingPosts st)).

(** A post is stored under [id] and has left [pending]. *)
Definition leftPending (id : string) (st : State) : Prop :=
  exists post,
    JS.Map.get id (pendingPosts st) = Some post /\ PendingPost.status post <> pending.

(** The event is a generation whose reading of [Date.now()] prints as [id],
    so that its post would be stored under [id]. *)
Definition stampsId (id : string) (e : Event) : bool :=
  match e with
  | Req (Generate now _ _ _) => (JS.toString now =? id)%string
  | Fire _ now _ _ _ => (JS.toString now =? id)%string
  | _ => false
  end.

(** The timers [startScheduler] leaves untouched: all of them, but the one
    [scheduleInterval] refers to. *)
Definition survivors (st : State) : list Timer.t :=
  match scheduleInterval st with
  | Some h => filter (fun t => negb (Timer.handle t =? h)%nat) (timers st)
  | None => timers st
  end.

(** The state [startScheduler] works on once the interval
    [scheduleInterval] refers to is cleared. *)
Definition cleared (st : State) : State :=
  match scheduleInterval st with
  | Some h => clearInterval h st
  | None => st
  end.

(** The first-run timeout [startScheduler] arms at [now] on a host whose
    zone keeps one offset, when the wall clock of the schedule's zone reads
    [wall]. *)
Definition firstRunTimer (now wall : Z) (st : State) : Timer.t :=
  {| Timer.handle := nextHandle st; Timer.what := Timer.FirstRun;
     Timer.armedAt := now;
     Timer.delay := nextRunAt (Schedule.time (schedule st)) wall - wall |}.

(** The zone of the host process keeps the one offset [c], of a day at
    most. *)
Definition fixedOffsetHost (env : Env) (c : Z) : Prop :=
  Z.abs c <= msPerDay /\ forall t isUTC, localTZA env t isUTC = c.

(** A wall-clock reading from 1970 to 9999: a year of four digits in the
    en-US rendering that [new Date] reads back. *)
Definition fourDigitYear (wall : Z) : Prop := 0 <= wall < 253402300800000.

(** What a timer is for and the instant it comes due first. *)
Definition due (t : Timer.t) : Timer.kind * Z :=
  (Timer.what t, Timer.armedAt t + Timer.delay t).

(* ===================================================================== *)
(** * Concrete environments and states used by the examples *)
(* ===================================================================== *)

Module Example.

Definition utcOnly (tz : string) (_ : Z) : option Z :=
  if (tz =? "UTC")%string then Some 0 else None.

(** No completion key, X credentials present. *)
Definition env : Env :=
  {| OPENROUTER_API_KEY := None;
     TWITTER_APP_KEY := Some "key"; TWITTER_APP_SECRET := Some "secret";
     TWITTER_ACCESS_TOKEN := Some "token"; TWITTER_ACCESS_SECRET := Some "access";
     zoneOffset := utcOnly; localTZA := fun _ _ => 0 |}.

(** As [env], with a completion key. *)
Definition envWithKey : Env :=
  {| OPENROUTER_API_KEY := Some "sk-or";
     TWITTER_APP_KEY := Some "key"; TWITTER_APP_SECRET := Some "secret";
     TWITTER_ACCESS_TOKEN := Some "token"; TWITTER_ACCESS_SECRET := Some "access";
     zoneOffset := utcOnly; localTZA := fun _ _ => 0 |}.

(** The registry after ["coding tips"] was added at instant 1. *)
Definition withTopic : State :=
  snd (post_api_topics (Some "coding tips") 1 1 initialState).

(** ... and after one post was generated from it at instant 5. *)
Definition withPost : State :=
  snd (post_api_generate_post env 5 5 0 (Resolves None) withTopic).

(** ... and after that post was approved and published. *)
Definition withApproved : State :=
  snd (post_api_posts_approve env "5" (Tweeted "1900") withPost).

(** The server started at the epoch with ["coding tips"] registered. *)
Definition started : State := listen env 0 withTopic.

(** ... and its schedule moved to 10:00 an hour later, before the first run. *)
Definition rescheduled : State :=
  snd (post_api_schedule env (Some "daily") (Some "10:00") (Some "UTC") msPerHour started).

(** A server whose schedule reads 00:30. *)
Definition halfPastMidnight : State :=
  set_schedule
    {| Schedule.frequency := "daily"; Schedule.time := "00:30";
       Schedule.timezone := "UTC"; Schedule.isActive := true |}
    initialState.

End Example.

(* ===================================================================== *)
(** * The command-line poster ([src/index.ts]) *)
(* ===================================================================== *)

Module Cli.

(** [text.replace(/\s+/g, ' ')]: every maximal run of white space becomes
    one space; [inRun] tells that a run is being skipped. *)
Fixpoint collapseFrom (inRun : bool) (text : string) : string :=
  match text with
  | EmptyString => EmptyString
  | String c r =>
      if JS.isSpace c
      then if inRun then collapseFrom true r else String " " (collapseFrom true r)
      else String c (collapseFrom false r)
  end.

Definition collapseSpaces (text : string) : string := collapseFrom false text.

Definition truncateForX (text : string) : string :=
  let normalized := JS.trim (collapseSpaces text) in
  if (280 <? String.length normalized)%nat then JS.slice0 280 normalized
  else normalized.

(** [args.indexOf(x)], [None] standing for [-1]. *)
Fixpoint indexOf (x : string) (args : list string) : option nat :=
  match args with
  | [] => None
  | a :: r => if (a =? x)%string then Some 0%nat else option_map S (indexOf x r)
  end.

(** [l.join(sep)] *)
Fixpoint join (sep : string) (l : list string) : string :=
  match l with
  | [] => ""
  | a :: r =>
      match r with
      | [] => a
      | _ :: _ => a ++ sep ++ join sep r
      end
  end.

Definition getRawFromArgs (args : list string) : option string :=
  match indexOf "--raw" args with
  | None => None
  | Some idx =>
      let raw := JS.trim (join " " (skipn (idx + 1) args)) in
      if JS.truthy raw then Some raw else None
  end.

(** [generatePost] of the command line: as the server's, with [truncateForX]
    in the place of the server's clipping. *)
Definition generatePost (env : Env) (reply : Completion) (topic : option string)
  : Outcome string :=
  let subject := subjectOf topic in
  if negb (openRouterClient env) then Returns (truncateForX (fallbackText subject))
  else
    match reply with
    | Rejects e => Throws e
    | Resolves c =>
        let text := match c with Some s => JS.trim s | None => "" end in
        Returns (truncateForX text)
    end.

(** What became of a text handed to [postToX]: without credentials it is
    only logged; with them it is tweeted, and the call may reject. *)
Inductive Posting := DryRun | Sent (status : string) (id : string).

Definition postToX (env : Env) (status : string) (reply : Tweet) : Outcome Posting :=
  if negb (createTwitterClient env) then Returns DryRun
  else
    match reply with
    | Tweeted i => Returns (Sent status i)
    | TweetFails e => Throws e
    end.

(** How [main] ends: with the prepared text and what [postToX] did with it
    ([None] when the text is empty and [postToX] is not called), or in the
    [catch] that exits with status 1. *)
Inductive Exit :=
| Finished (postText : string) (posting : option Posting)
| Fatal (e : JS.thrown).

(** [main], on [args = process.argv.slice(2)]. *)
Definition main (env : Env) (args : list string) (completion : Completion)
  (tweet : Tweet) : Exit :=
  let fromTopic :=
    let topic := join " " (filter (fun a => negb (a =? "--raw")%string) args) in
    generatePost env completion (if JS.truthy topic then Some topic else None) in
  let prepared :=
    match getRawFromArgs args with
    | Some raw => if JS.truthy raw then Returns (truncateForX raw) else fromTopic
    | None => fromTopic
    end in
  match prepared with
  | Throws e => Fatal e
  | Returns postText =>
      if JS.truthy postText
      then match postToX env postText tweet with
           | Returns p => Finished postText (Some p)
           | Throws e => Fatal e
           end
      else Finished postText None
  end.

End Cli.

(* ===================================================================== *)
(** * The stand-alone scheduler script: its topic pick *)
(* ===================================================================== *)

Module Script.

Definition TOPICS : list string :=
  ["coding best practices"; "developer productivity tips";
   "software engineering insights"; "programming wisdom"; "tech industry trends"].

(** [TOPICS[Math.floor(Math.random() * TOPICS.length)]]: [None] is the
    [undefined] an index outside the array would give. *)
Definition getRandomTopic (rnd : Q) : option string :=
  JS.at_ TOPICS (JS.randomIndex rnd (List.length TOPICS)).

End Script.

(* ===================================================================== *)
(** * Notions used in the statements on whole runs *)
(* ===================================================================== *)

Definition keys {V : Type} (m : JS.Map.t V) : list string := List.map fst m.

(** The reading of [Date.now()] an event stamps its post with, if it is a
    generation. *)
Definition stampOf (e : Event) : option Z :=
  match e with
  | Req (Generate now _ _ _) => Some now
  | Fire _ now _ _ _ => Some now
  | _ => None
  end.

(** How one event may change the stored posts: not at all; the status of a
    stored post is set, to [approved] only with X credentials; or a new
    pending post of at most 280 characters is stored under its stamp. *)
Inductive PostsChange (env : Env) (e : Event) (m : JS.Map.t PendingPost.t)
  : JS.Map.t PendingPost.t -> Prop :=
| PostsSame : PostsChange env e m m
| PostsStatus id post s :
    JS.Map.get id m = Some post ->
    s = rejected \/ (s = approved /\ createTwitterClient env = true) ->
    PostsChange env e m (JS.Map.set id (PendingPost.with_status s post) m)
| PostsNew now ts t content :
    stampOf e = Some now ->
    (String.length content <= 280)%nat ->
    PostsChange env e m (JS.Map.set (JS.toString now) (newPost now ts t content) m).

(** How one event may change the topics: not at all, one more active topic
    with a non-empty name, a stored topic toggled, a stored topic removed. *)
Inductive TopicsChange (m : JS.Map.t Topic.t) : JS.Map.t Topic.t -> Prop :=
| TopicsSame : TopicsChange m m
| TopicsNew now ts name :
    name <> "" ->
    TopicsChange m
      (JS.Map.set (JS.toString now)
         {| Topic.id := JS.toString now; Topic.name := name;
            Topic.createdAt := ts; Topic.isActive := true |} m)
| TopicsToggled id t :
    JS.Map.get id m = Some t ->
    TopicsChange m (JS.Map.set id (Topic.toggled t) m)
| TopicsRemoved id :
    JS.Map.has id m = true ->
    TopicsChange m (JS.Map.remove id m).

(** The maps are maps (no key twice) and every record sits under its own
    id. *)
Definition wellKeyed (st : State) : Prop :=
  NoDup (keys (topics st))
  /\ NoDup (keys (pendingPosts st))
  /\ Forall (fun kv => Topic.id (snd kv) = fst kv) (topics st)
  /\ Forall (fun kv => PendingPost.id (snd kv) = fst kv) (pendingPosts st).

(** Every stored post fits the platform's 280 characters. *)
Definition withinLimit (st : State) : Prop :=
  Forall (fun post => (String.length (PendingPost.content post) <= 280)%nat)
    (JS.Map.values (pendingPosts st)).

(** No stored post is approved. *)
Definition noneApproved (st : State) : Prop :=
  Forall (fun post => PendingPost.status post <> approved)
    (JS.Map.values (pendingPosts st)).

(** The live timers have distinct handles, all handed out already. *)
Definition timersFresh (st : State) : Prop :=
  NoDup (List.map Timer.handle (timers st))
  /\ Forall (fun t => (Timer.handle t < nextHandle st)%nat) (timers st).

(** A string that is empty or starts with a character that is not white
    space, as [trimStart] returns them. *)
Definition startsClean (s : string) : Prop :=
  match s with
  | EmptyString => True
  | String c _ => JS.isSpace c = false
  end.

(** A text whose only white space is single spaces: no tab or line break,
    no two spaces in a row.  [afterSpace] tells that the character before was
    a space. *)
Fixpoint tidyFrom (afterSpace : bool) (s : string) : bool :=
  match s with
  | EmptyString => true
  | String c r =>
      if JS.isSpace c
      then Ascii.eqb c " " && negb afterSpace && tidyFrom true r
      else tidyFrom false r
  end.

Definition singleSpaced (s : string) : Prop := tidyFrom false s = true.

(** A list of records is in the order of the list handlers: largest key
    first. *)
Definition newestFirst {A : Type} (key : A -> Z) (l : list A) : Prop :=
  StronglySorted (fun a b => key b <= key a) l.

(* ===================================================================== *)
(** * Lemmas on the built-ins *)
(* ===================================================================== *)

Section MapFacts.
Context {V : Type}.
Implicit Types (m : JS.Map.t V) (k : string) (v : V).

Lemma get_set_same k v m : JS.Map.get k (JS.Map.set k v m) = Some v.
Proof.
  induction m as [|[k' v'] r IH]; simpl.
  - now rewrite String.eqb_refl.
  - destruct (String.eqb_spec k k') as [->|ne]; simpl.
    + now rewrite String.eqb_refl.
    + destruct (String.eqb_spec k k'); [contradiction|exact IH].
Qed.

Lemma get_set_other k k' v m :
  k <> k' -> JS.Map.get k (JS.Map.set k' v m) = JS.Map.get k m.
Proof.
  intros ne. induction m as [|[k0 v0] r IH]; simpl.
  - destruct (String.eqb_spec k k'); [contradiction|reflexivity].
  - destruct (String.eqb_spec k' k0) as [->|ne0]; simpl.
    + destruct (String.eqb_spec k k0); [contradiction|reflexivity].
    + destruct (String.eqb_spec k k0); [reflexivity|exact IH].
Qed.

End MapFacts.

Lemma truthy_false_iff s : JS.truthy s = false <-> s = "".
Proof.
  unfold JS.truthy. destruct (String.eqb_spec s ""); simpl; split; congruence.
Qed.

Lemma truthy_true_iff s : JS.truthy s = true <-> s <> "".
Proof.
  unfold JS.truthy. destruct (String.eqb_spec s ""); simpl; split; congruence.
Qed.

(** [Math.floor(Math.random() * n)] is an index of an array of length [n]. *)
Lemma randomIndex_range (rnd : Q) (n : nat) :
  (0 <= rnd)%Q -> (rnd < 1)%Q -> (0 < n)%nat ->
  0 <= JS.randomIndex rnd n < Z.of_nat n.
Proof.
  intros lo hi pos. unfold JS.randomIndex.
  set (k := Z.of_nat n). assert (0 < k) as kpos by (subst k; lia).
  assert (0 < inject_Z k)%Q as qpos.
  { change (inject_Z 0 < inject_Z k)%Q. now rewrite <- Zlt_Qlt. }
  split.
  - rewrite <- (Qfloor_Z 0). apply Qfloor_resp_le.
    change (inject_Z 0) with 0%Q.
    apply Qmult_le_0_compat; [exact lo | now apply Qlt_le_weak].
  - rewrite Zlt_Qlt.
    apply Qle_lt_trans with (rnd * inject_Z k)%Q; [apply Qfloor_le|].
    rewrite <- (Qmult_1_l (inject_Z k)) at 2.
    now apply Qmult_lt_compat_r.
Qed.

Lemma at_in_range {A : Type} (a : list A) (i : Z) :
  0 <= i < Z.of_nat (List.length a) ->
  exists x, JS.at_ a i = Some x /\ In x a.
Proof.
  intros [lo hi]. unfold JS.at_.
  destruct (Z.ltb_spec i 0); [lia|].
  destruct (nth_error a (Z.to_nat i)) as [x|] eqn:E.
  - exists x. split; [reflexivity|]. now apply nth_error_In with (Z.to_nat i).
  - apply nth_error_None in E. lia.
Qed.

(* ===================================================================== *)
(** * Generation *)
(* ===================================================================== *)

(** With a non-empty pool and a reading of [Math.random] in [[0, 1)], some
    active topic is picked and the outcome is that of [generatePost] on it. *)
Lemma generateFrom_picks env now ts rnd reply st :
  activeTopics st <> [] -> (0 <= rnd)%Q -> (rnd < 1)%Q ->
  exists t, In t (activeTopics st) /\
    generateFrom env now ts rnd reply st =
      match generatePost env reply (Some (Topic.name t)) with
      | Throws e => Throws e
      | Returns content =>
          let post := newPost now ts t content in Returns (Some (post, store post st))
      end.
Proof.
  intros ne lo hi. unfold generateFrom. fold (activeTopics st).
  destruct (activeTopics st) as [|t0 r] eqn:E; [congruence|].
  change (List.length (t0 :: r) =? 0)%nat with false. cbv iota.
  destruct (at_in_range (t0 :: r) (JS.randomIndex rnd (List.length (t0 :: r))))
    as [t [Ht Hin]].
  { apply randomIndex_range; simpl; auto; lia. }
  exists t. split; [exact Hin|]. rewrite Ht.
  destruct (generatePost env reply (Some (Topic.name t))); reflexivity.
Qed.

Lemma store_get post st :
  JS.Map.get (PendingPost.id post) (pendingPosts (store post st)) = Some post.
Proof. unfold store. simpl. apply get_set_same. Qed.

(** C6. When no topic is active, [POST /api/generate-post] answers with the
    no-active-topics failure and the state, hence the set of stored posts, is
    what it was; the scheduled generator likewise creates nothing. *)
Theorem generate_with_empty_pool env now ts rnd reply st :
  activeTopics st = [] ->
  post_api_generate_post env now ts rnd reply st = (Failure noActiveTopics, st)
  /\ generateScheduledPost env now ts rnd reply st = st.
Proof.
  unfold activeTopics. intros E.
  unfold post_api_generate_post, generateScheduledPost, generateFrom.
  rewrite E. split; reflexivity.
Qed.

Lemma generate_with_empty_pool_witness :
  post_api_generate_post Example.env 5 5 (1 # 2) (Resolves None) initialState
    = (Failure noActiveTopics, initialState)
  /\ generateScheduledPost Example.env 5 5 (1 # 2) (Resolves None) initialState
    = initialState.
Proof.
  apply (generate_with_empty_pool Example.env 5 5 (1 # 2) (Resolves None) initialState).
  reflexivity.
Defined.

(** C7. With ["coding tips"] as the only active topic and no completion
    client, [POST /api/generate-post] stores and returns a pending post whose
    content is exactly the fallback sentence for that topic. *)
Theorem generate_coding_tips_fallback env now ts rnd reply st t :
  openRouterClient env = false ->
  activeTopics st = [t] ->
  Topic.name t = "coding tips" ->
  (0 <= rnd)%Q -> (rnd < 1)%Q ->
  exists post st',
    post_api_generate_post env now ts rnd reply st = (SuccessPost post, st')
    /\ PendingPost.content post
       = "Tip: coding tips. Keep it short, specific, and actionable. Focus on one insight, avoid fluff."
    /\ PendingPost.status post = pending
    /\ JS.Map.get (PendingPost.id post) (pendingPosts st') = Some post.
Proof.
  intros off E name lo hi.
  destruct (generateFrom_picks env now ts rnd reply st) as [t' [Hin Hg]]; auto.
  { rewrite E. discriminate. }
  rewrite E in Hin. destruct Hin as [<-|[]].
  unfold post_api_generate_post. rewrite Hg.
  unfold generatePost. rewrite off, name. cbn -[clip fallbackText newPost store].
  eexists. eexists. split; [reflexivity|].
  split; [reflexivity|]. split; [reflexivity|]. apply store_get.
Qed.

Lemma generate_coding_tips_fallback_witness :
  exists post st',
    post_api_generate_post Example.env 5 5 (1 # 2) (Resolves None) Example.withTopic
      = (SuccessPost post, st')
    /\ PendingPost.content post
       = "Tip: coding tips. Keep it short, specific, and actionable. Focus on one insight, avoid fluff."
    /\ PendingPost.status post = pending
    /\ JS.Map.get (PendingPost.id post) (pendingPosts st') = Some post.
Proof.
  apply (generate_coding_tips_fallback Example.env 5 5 (1 # 2) (Resolves None)
           Example.withTopic
           {| Topic.id := "1"; Topic.name := "coding tips"; Topic.createdAt := 1;
              Topic.isActive := true |});
    try reflexivity; discriminate.
Defined.

(** C5, as stated, fails: with a completion client configured and its call
    rejecting, the caller of [POST /api/generate-post] receives the
    rejection's message as a failure and no post is stored. *)
Lemma generation_error_reaches_caller :
  post_api_generate_post Example.envWithKey 5 5 (1 # 2)
    (Rejects (JS.Error "503 Service Unavailable")) Example.withTopic
  = (Failure "503 Service Unavailable", Example.withTopic).
Proof. reflexivity. Qed.

(** C5, amended.  With a non-empty pool: when no completion client is
    configured, generation substitutes the fallback sentence for the picked
    topic and stores and returns a pending post; when a client is configured
    and its call rejects, the caller receives the rejection's message as a
    failure and nothing is stored, by the handler and by the scheduled
    generator alike. *)
Theorem generation_failure_handling env now ts rnd reply st :
  activeTopics st <> [] -> (0 <= rnd)%Q -> (rnd < 1)%Q ->
  (openRouterClient env = false ->
     exists t, In t (activeTopics st) /\
       let post :=
         newPost now ts t (clip (fallbackText (subjectOf (Some (Topic.name t))))) in
       PendingPost.status post = pending
       /\ post_api_generate_post env now ts rnd reply st = (SuccessPost post, store post st)
       /\ JS.Map.get (PendingPost.id post) (pendingPosts (store post st)) = Some post)
  /\ (forall e, openRouterClient env = true -> reply = Rejects e ->
        post_api_generate_post env now ts rnd reply st = (Failure (JS.errorMessage e), st)
        /\ generateScheduledPost env now ts rnd reply st = st).
Proof.
  intros ne lo hi.
  destruct (generateFrom_picks env now ts rnd reply st ne lo hi) as [t [Hin Hg]].
  split.
  - intros off. exists t. split; [exact Hin|].
    unfold post_api_generate_post. rewrite Hg.
    unfold generatePost. rewrite off. cbv zeta. cbn [negb].
    split; [reflexivity|]. split; [reflexivity|]. apply store_get.
  - intros e on ->.
    unfold post_api_generate_post, generateScheduledPost. rewrite Hg.
    unfold generatePost. rewrite on. cbn [negb]. split; reflexivity.
Qed.

Lemma generation_failure_handling_witness :
  (exists t, In t (activeTopics Example.withTopic) /\
     let post :=
       newPost 5 5 t (clip (fallbackText (subjectOf (Some (Topic.name t))))) in
     PendingPost.status post = pending
     /\ post_api_generate_post Example.env 5 5 (1 # 2) (Resolves None) Example.withTopic
        = (SuccessPost post, store post Example.withTopic)
     /\ JS.Map.get (PendingPost.id post) (pendingPosts (store post Example.withTopic))
        = Some post)
  /\ (post_api_generate_post Example.envWithKey 5 5 (1 # 2)
        (Rejects (JS.Error "503 Service Unavailable")) Example.withTopic
      = (Failure "503 Service Unavailable", Example.withTopic)
      /\ generateScheduledPost Example.envWithKey 5 5 (1 # 2)
           (Rejects (JS.Error "503 Service Unavailable")) Example.withTopic
         = Example.withTopic).
Proof.
  split.
  - refine (proj1 (generation_failure_handling Example.env 5 5 (1 # 2)
                     (Resolves None) Example.withTopic _ _ _) _);
      try reflexivity; discriminate.
  - refine (proj2 (generation_failure_handling Example.envWithKey 5 5 (1 # 2)
                     (Rejects (JS.Error "503 Service Unavailable"))
                     Example.withTopic _ _ _)
                  (JS.Error "503 Service Unavailable") _ _);
      try reflexivity; discriminate.
Defined.

(* ===================================================================== *)
(** * Topic registry *)
(* ===================================================================== *)

(** C9, as stated, fails: a name made of white space only is accepted and
    an active topic of that name is registered. *)
Lemma blank_topic_name_is_accepted :
  exists topic st',
    post_api_topics (Some "   ") 1 1 initialState = (SuccessTopic topic, st')
    /\ JS.trim (Topic.name topic) = ""
    /\ Topic.isActive topic = true
    /\ JS.Map.get "1" (topics st') = Some topic.
Proof. eexists. eexists. repeat split. Qed.

(** C9, amended.  [POST /api/topics] with an absent or empty name fails with
    ["Topic name required"] and registers nothing; with any non-empty name,
    one made of white space only included, it registers an active topic of
    that name. *)
Theorem add_topic_name_check name now ts st :
  (JS.truthy_opt name = false ->
     post_api_topics name now ts st = (Failure "Topic name required", st))
  /\ (forall s, name = Some s -> s <> "" ->
        exists topic st',
          post_api_topics name now ts st = (SuccessTopic topic, st')
          /\ Topic.name topic = s
          /\ Topic.isActive topic = true
          /\ JS.Map.get (JS.toString now) (topics st') = Some topic).
Proof.
  split.
  - destruct name as [s|]; simpl; [|reflexivity].
    intros ->. reflexivity.
  - intros s -> ne. apply truthy_true_iff in ne.
    unfold post_api_topics. rewrite ne. cbn [negb].
    eexists. eexists. split; [reflexivity|].
    split; [reflexivity|]. split; [reflexivity|]. simpl. apply get_set_same.
Qed.

Lemma add_topic_name_check_witness :
  post_api_topics (Some "") 1 1 initialState
    = (Failure "Topic name required", initialState)
  /\ exists topic st',
       post_api_topics (Some " ") 1 1 initialState = (SuccessTopic topic, st')
       /\ Topic.name topic = " "
       /\ Topic.isActive topic = true
       /\ JS.Map.get (JS.toString 1) (topics st') = Some topic.
Proof.
  split.
  - refine (proj1 (add_topic_name_check (Some "") 1 1 initialState) _).
    reflexivity.
  - refine (proj2 (add_topic_name_check (Some " ") 1 1 initialState) " " _ _);
      [reflexivity | discriminate].
Defined.

(* ===================================================================== *)
(** * Post lifecycle *)
(* ===================================================================== *)

(** C3, as stated, fails: approving a post that is already approved hands
    its content to the publisher once more and succeeds, and rejecting it
    succeeds too. *)
Lemma approve_of_approved_publishes_again :
  statusOf "5" Example.withApproved = Some approved
  /\ fst (post_api_posts_approve Example.env "5" (Tweeted "1901") Example.withApproved)
     = SuccessId "1901"
  /\ List.length
       (publishCalls
          (snd (post_api_posts_approve Example.env "5" (Tweeted "1901")
                  Example.withApproved)))
     = S (List.length (publishCalls Example.withApproved))
  /\ fst (post_api_posts_reject "5" Example.withApproved) = Success.
Proof. repeat split. Qed.

(** C3, amended.  For an unknown id, approve and reject both fail with
    ["Post not found"] and change nothing.  For a known id the stored status
    is not looked at: approve hands the content to the publisher and answers
    by the publisher's result, reject succeeds and leaves the post
    rejected.  (The id is a route segment, which express never matches
    empty.) *)
Theorem approve_reject_by_lookup env id reply st :
  id <> "" ->
  (JS.Map.get id (pendingPosts st) = None ->
     post_api_posts_approve env id reply st = (Failure "Post not found", st)
     /\ post_api_posts_reject id st = (Failure "Post not found", st))
  /\ (forall post, JS.Map.get id (pendingPosts st) = Some post ->
        publishCalls (snd (post_api_posts_approve env id reply st))
          = (publishCalls st ++ [PendingPost.content post])%list
        /\ fst (post_api_posts_approve env id reply st)
           = match postToX env reply with
             | Published rid => SuccessId rid
             | NotPublished error => Failure error
             end
        /\ fst (post_api_posts_reject id st) = Success
        /\ statusOf id (snd (post_api_posts_reject id st)) = Some rejected).
Proof.
  intros ne. apply truthy_true_iff in ne.
  unfold post_api_posts_approve, post_api_posts_reject. rewrite ne. cbn [negb].
  split.
  - intros ->. split; reflexivity.
  - intros post ->. destruct (postToX env reply); cbn.
    + repeat split. unfold statusOf. cbn. now rewrite get_set_same.
    + repeat split. unfold statusOf. cbn. now rewrite get_set_same.
Qed.

Lemma approve_reject_by_lookup_witness :
  (post_api_posts_approve Example.env "7" (Tweeted "1901") Example.withApproved
     = (Failure "Post not found", Example.withApproved)
   /\ post_api_posts_reject "7" Example.withApproved
     = (Failure "Post not found", Example.withApproved))
  /\ fst (post_api_posts_approve Example.env "5" (Tweeted "1901") Example.withApproved)
     = SuccessId "1901".
Proof.
  split.
  - refine (proj1 (approve_reject_by_lookup Example.env "7" (Tweeted "1901")
                     Example.withApproved _) _);
      [discriminate | reflexivity].
  - refine (proj1 (proj2 (proj2 (approve_reject_by_lookup Example.env "5"
                     (Tweeted "1901") Example.withApproved _)
                     (PendingPost.with_status approved
                        (newPost 5 5
                           {| Topic.id := "1"; Topic.name := "coding tips";
                              Topic.createdAt := 1; Topic.isActive := true |}
                           (fallbackText "coding tips"))) _)));
      [discriminate | reflexivity].
Defined.

Lemma approve_not_published env id reply st post error :
  id <> "" ->
  JS.Map.get id (pendingPosts st) = Some post ->
  postToX env reply = NotPublished error ->
  post_api_posts_approve env id reply st
  = (Failure error,
     set_publishCalls (publishCalls st ++ [PendingPost.content post]) st).
Proof.
  intros ne Hget Hfail. apply truthy_true_iff in ne.
  unfold post_api_posts_approve. now rewrite ne, Hget, Hfail.
Qed.

Lemma approve_published env id reply st post rid :
  id <> "" ->
  JS.Map.get id (pendingPosts st) = Some post ->
  postToX env reply = Published rid ->
  post_api_posts_approve env id reply st
  = (SuccessId rid,
     set_pendingPosts
       (JS.Map.set id (PendingPost.with_status approved post) (pendingPosts st))
       (set_publishCalls (publishCalls st ++ [PendingPost.content post]) st)).
Proof.
  intros ne Hget Hok. apply truthy_true_iff in ne.
  unfold post_api_posts_approve. now rewrite ne, Hget, Hok.
Qed.

(** C4. For a pending post, an approve whose publisher call fails answers
    with the publisher's reason and leaves the stored posts as they were, the
    post still pending; an approve made afterwards on the same id reaches the
    publisher again and, when that call succeeds, answers with the remote id
    and leaves the post approved.  The post becomes approved by an approve
    exactly when the publisher call succeeded.  (The id is a route segment,
    which express never matches empty.) *)
Theorem approve_publish_failure_retry env id reply st post :
  id <> "" ->
  JS.Map.get id (pendingPosts st) = Some post ->
  PendingPost.status post = pending ->
  (forall error, postToX env reply = NotPublished error ->
     let st' := snd (post_api_posts_approve env id reply st) in
     fst (post_api_posts_approve env id reply st) = Failure error
     /\ pendingPosts st' = pendingPosts st
     /\ statusOf id st' = Some pending
     /\ forall reply' rid, postToX env reply' = Published rid ->
          fst (post_api_posts_approve env id reply' st') = SuccessId rid
          /\ publishCalls (snd (post_api_posts_approve env id reply' st'))
             = (publishCalls st' ++ [PendingPost.content post])%list
          /\ statusOf id (snd (post_api_posts_approve env id reply' st'))
             = Some approved)
  /\ (statusOf id (snd (post_api_posts_approve env id reply st)) = Some approved
      <-> exists rid, postToX env reply = Published rid).
Proof.
  intros ne Hget Hpending. split.
  - intros error Hfail.
    rewrite (approve_not_published env id reply st post error ne Hget Hfail).
    cbn [fst snd]. split; [reflexivity|]. split; [reflexivity|].
    split; [unfold statusOf; cbn; rewrite Hget; cbn; now f_equal|].
    intros reply' rid Hok.
    set (st' := set_publishCalls _ st).
    assert (JS.Map.get id (pendingPosts st') = Some post) as Hget' by exact Hget.
    rewrite (approve_published env id reply' st' post rid ne Hget' Hok).
    cbn [fst snd]. split; [reflexivity|]. split; [reflexivity|].
    unfold statusOf. cbn. now rewrite get_set_same.
  - destruct (postToX env reply) as [rid|error] eqn:E.
    + rewrite (approve_published env id reply st post rid ne Hget E).
      unfold statusOf. cbn. rewrite get_set_same. split; [eauto|reflexivity].
    + rewrite (approve_not_published env id reply st post error ne Hget E).
      unfold statusOf. cbn. rewrite Hget. cbn. rewrite Hpending.
      split; [discriminate|intros [rid H]; discriminate].
Qed.

Lemma approve_publish_failure_retry_witness :
  let st' :=
    snd (post_api_posts_approve Example.env "5" (TweetFails (JS.Error "429 Too Many Requests"))
           Example.withPost) in
  fst (post_api_posts_approve Example.env "5" (TweetFails (JS.Error "429 Too Many Requests"))
         Example.withPost) = Failure "429 Too Many Requests"
  /\ statusOf "5" st' = Some pending
  /\ fst (post_api_posts_approve Example.env "5" (Tweeted "1900") st') = SuccessId "1900"
  /\ statusOf "5" (snd (post_api_posts_approve Example.env "5" (Tweeted "1900") st'))
     = Some approved.
Proof.
  destruct (proj1 (approve_publish_failure_retry Example.env "5"
                     (TweetFails (JS.Error "429 Too Many Requests")) Example.withPost
                     (newPost 5 5
                        {| Topic.id := "1"; Topic.name := "coding tips";
                           Topic.createdAt := 1; Topic.isActive := true |}
                        (fallbackText "coding tips"))
                     ltac:(discriminate) eq_refl eq_refl)
                  "429 Too Many Requests" eq_refl)
    as [Hr [_ [Hs Hretry]]].
  destruct (Hretry (Tweeted "1900") "1900" eq_refl) as [Hr' [_ Hs']].
  repeat split; assumption.
Defined.

(** ** What each transition does to the stored posts *)

Lemma leftPending_ext id st st' :
  pendingPosts st' = pendingPosts st -> leftPending id st -> leftPending id st'.
Proof. unfold leftPending. now intros ->. Qed.

Lemma leftPending_set_other id k v st :
  k <> id -> leftPending id st ->
  leftPending id (set_pendingPosts (JS.Map.set k v (pendingPosts st)) st).
Proof.
  intros ne [post [Hget Hs]]. exists post. split; [|exact Hs].
  cbn. rewrite get_set_other; [exact Hget|congruence].
Qed.

Lemma leftPending_set_same id v st :
  PendingPost.status v <> pending ->
  leftPending id (set_pendingPosts (JS.Map.set id v (pendingPosts st)) st).
Proof. intros Hs. exists v. split; [cbn; apply get_set_same|exact Hs]. Qed.

Lemma generateFrom_stores env now ts rnd reply st post st' :
  generateFrom env now ts rnd reply st = Returns (Some (post, st')) ->
  st' = store post st /\ PendingPost.id post = JS.toString now
  /\ PendingPost.status post = pending.
Proof.
  unfold generateFrom.
  destruct (List.length _ =? 0)%nat; [discriminate|].
  destruct (JS.at_ _ _) as [t|]; [|discriminate].
  destruct (generatePost _ _ _) as [content|e]; [|discriminate].
  intros [= <- <-]. repeat split.
Qed.

(** The three ways [startScheduler] ends: nothing armed, a throw, or one
    first-run timeout armed; each after the referenced interval is
    cleared. *)
Lemma startScheduler_cases env now st :
  startScheduler env now st = (cleared st, None)
  \/ (exists e, startScheduler env now st = (cleared st, Some e))
  \/ (exists delay,
        startScheduler env now st
        = (snd (arm Timer.FirstRun now delay (cleared st)), None)).
Proof.
  unfold startScheduler. fold (cleared st).
  destruct (negb (Schedule.isActive (schedule (cleared st)))); [now left|].
  destruct (userTimeAt env _ now) as [wall|]; [|right; left; eauto].
  destruct (TimeClip (UTC env wall)) as [userTime|]; [|right; left; eauto].
  destruct (nextRunOn env _ userTime) as [nextRun|]; [|right; left; eauto].
  right; right. eauto.
Qed.

Lemma cleared_frame st :
  topics (cleared st) = topics st /\ pendingPosts (cleared st) = pendingPosts st
  /\ schedule (cleared st) = schedule st
  /\ scheduleInterval (cleared st) = scheduleInterval st
  /\ timers (cleared st) = survivors st
  /\ nextHandle (cleared st) = nextHandle st.
Proof.
  unfold cleared, survivors.
  destruct (scheduleInterval st) as [h|] eqn:E; cbn; rewrite ?E;
    repeat (split; try reflexivity).
Qed.

Lemma startScheduler_pendingPosts env now st :
  pendingPosts (fst (startScheduler env now st)) = pendingPosts st.
Proof.
  destruct (cleared_frame st) as [_ [Hp _]].
  destruct (startScheduler_cases env now st) as [E|[[e E]|[d E]]];
    rewrite E; exact Hp.
Qed.

Lemma setupRecurringSchedule_pendingPosts now st :
  pendingPosts (setupRecurringSchedule now st) = pendingPosts st.
Proof.
  unfold setupRecurringSchedule.
  destruct (Schedule.isActive (schedule st)); reflexivity.
Qed.

Lemma leftPending_generateScheduledPost env now ts rnd reply id st :
  JS.toString now <> id -> leftPending id st ->
  leftPending id (generateScheduledPost env now ts rnd reply st).
Proof.
  intros ne H. unfold generateScheduledPost.
  destruct (generateFrom env now ts rnd reply st) as [[[post st']|]|e] eqn:E;
    try exact H.
  apply generateFrom_stores in E as [-> [Hid _]].
  unfold store. apply leftPending_set_other; [congruence|exact H].
Qed.

Lemma leftPending_handle env r id st :
  stampsId id (Req r) = false -> leftPending id st ->
  leftPending id (snd (handle env r st)).
Proof.
  intros Hstamp H. destruct r; cbn [handle].
  - unfold post_api_topics. destruct name as [s|]; [|exact H].
    destruct (JS.truthy s); exact H.
  - exact H.
  - unfold post_api_topics_toggle. destruct (JS.truthy id0); [|exact H].
    cbn. destruct (JS.Map.get id0 (topics st)); exact H.
  - unfold delete_api_topics. destruct (JS.truthy id0); [|exact H].
    cbn. destruct (JS.Map.has id0 (topics st)); exact H.
  - unfold post_api_schedule.
    destruct frequency as [f|]; [|exact H].
    destruct time as [t|]; [|exact H].
    destruct timezone as [z|]; [|exact H].
    destruct (JS.truthy f && JS.truthy t && JS.truthy z); [|exact H].
    cbn [negb].
    match goal with
    | |- context [startScheduler env now ?s] =>
        pose proof (startScheduler_pendingPosts env now s) as Hp;
        destruct (startScheduler env now s) as [st1 [e|]]
    end; cbn in *; eapply leftPending_ext; eauto.
  - exact H.
  - exact H.
  - unfold post_api_posts_approve. destruct (JS.truthy id0); [|exact H].
    cbn [negb].
    destruct (JS.Map.get id0 (pendingPosts st)) as [post|] eqn:Hget; [|exact H].
    destruct (postToX env reply); cbn [snd].
    + destruct (String.eqb_spec id0 id) as [->|ne].
      * apply leftPending_set_same. discriminate.
      * apply leftPending_set_other; [exact ne|].
        eapply leftPending_ext; [|exact H]. reflexivity.
    + eapply leftPending_ext; [|exact H]. reflexivity.
  - unfold post_api_posts_reject. destruct (JS.truthy id0); [|exact H].
    cbn [negb].
    destruct (JS.Map.get id0 (pendingPosts st)) as [post|] eqn:Hget; [|exact H].
    cbn [snd]. destruct (String.eqb_spec id0 id) as [->|ne].
    + apply leftPending_set_same. discriminate.
    + apply leftPending_set_other; [exact ne|exact H].
  - cbn in Hstamp. apply String.eqb_neq in Hstamp.
    unfold post_api_generate_post.
    destruct (generateFrom env now ts rnd reply st) as [[[post st']|]|e] eqn:E;
      try exact H.
    apply generateFrom_stores in E as [-> [Hid _]].
    unfold store. cbn [snd]. apply leftPending_set_other; [congruence|exact H].
Qed.

Lemma leftPending_fire env h now ts rnd reply id st :
  JS.toString now <> id -> leftPending id st ->
  leftPending id (fire env h now ts rnd reply st).
Proof.
  intros ne H. unfold fire.
  destruct (find _ (timers st)) as [t|]; [|exact H].
  destruct (Timer.what t).
  - eapply leftPending_ext; [apply setupRecurringSchedule_pendingPosts|].
    apply leftPending_generateScheduledPost; [exact ne|].
    eapply leftPending_ext; [|exact H]. reflexivity.
  - now apply leftPending_generateScheduledPost.
Qed.

Lemma leftPending_step env e id st :
  stampsId id e = false -> leftPending id st -> leftPending id (step env e st).
Proof.
  intros Hstamp H. destruct e as [r|h now ts rnd reply]; cbn [step].
  - now apply leftPending_handle.
  - apply leftPending_fire; [|exact H]. cbn in Hstamp. now apply String.eqb_neq.
Qed.

(** C2, as stated, fails: the status of a post that was approved is changed
    by a later reject, and the status of a rejected post by a later approve
    whose publisher call succeeds. *)
Lemma terminal_status_is_overwritten :
  statusOf "5" Example.withApproved = Some approved
  /\ statusOf "5" (run Example.env [Req (Reject "5")] Example.withApproved)
     = Some rejected
  /\ statusOf "5"
       (run Example.env [Req (Reject "5"); Req (Approve "5" (Tweeted "1901"))]
          Example.withApproved)
     = Some approved.
Proof. repeat split. Qed.

(** C2, amended.  Over every sequence of requests and timer firings, a
    stored post that has left [pending] stays stored and never becomes
    pending again, as long as no generation of the sequence reads from
    [Date.now()] the very value the post's id was printed from.  (Approve
    and reject may still move it between [approved] and [rejected].) *)
Theorem pending_is_never_reentered env es id st :
  leftPending id st ->
  existsb (stampsId id) es = false ->
  leftPending id (run env es st).
Proof.
  unfold run. revert st.
  induction es as [|e es IH]; intros st H Hstamps; cbn [fold_left].
  - exact H.
  - cbn [existsb] in Hstamps. apply orb_false_iff in Hstamps as [He Hes].
    apply IH; [|exact Hes]. now apply leftPending_step.
Qed.

Lemma pending_is_never_reentered_witness :
  leftPending "5"
    (run Example.env
       [Req (Reject "5"); Req (Generate 6 6 (1 # 2) (Resolves None));
        Req (Approve "5" (Tweeted "1901")); Req (ListPosts (Some "pending"))]
       Example.withApproved).
Proof.
  apply (pending_is_never_reentered Example.env _ "5" Example.withApproved).
  - eexists. split; [reflexivity|discriminate].
  - reflexivity.
Defined.

(** Why the amended C2 asks for distinct stamps: a generation that reads
    from [Date.now()] the value an approved post was stamped with stores its
    pending post in that post's place. *)
Lemma same_stamp_replaces_post :
  statusOf "5" Example.withApproved = Some approved
  /\ statusOf "5"
       (run Example.env [Req (Generate 5 9 (1 # 2) (Resolves None))] Example.withApproved)
     = Some pending.
Proof. split; reflexivity. Qed.

(* ===================================================================== *)
(** * Scheduler *)
(* ===================================================================== *)

(** The fields of a wall-clock reading set by [setHours], a whole number of
    days later. *)
Lemma setHours_fields u h m k :
  0 <= h < 24 -> 0 <= m < 60 ->
  getHours (setHours u h m + k * msPerDay) = h
  /\ getMinutes (setHours u h m + k * msPerDay) = m.
Proof.
  intros Hh Hm. unfold getHours, getMinutes, setHours, startOfDay.
  change msPerDay with 86400000. change msPerHour with 3600000.
  change msPerMinute with 60000.
  split; Z.div_mod_to_equations; lia.
Qed.

(** A first-run timeout is never what [scheduleInterval] refers to as long
    as only [setupRecurringSchedule] assigns it; such a timeout survives any
    later [startScheduler]. *)
Lemma startScheduler_keeps_unreferenced env now st t :
  In t (timers st) ->
  scheduleInterval st <> Some (Timer.handle t) ->
  In t (timers (fst (startScheduler env now st))).
Proof.
  intros Hin Hne.
  assert (In t (survivors st)) as Hs.
  { unfold survivors. destruct (scheduleInterval st) as [h|]; [|exact Hin].
    apply filter_In. split; [exact Hin|].
    destruct (Nat.eqb_spec (Timer.handle t) h); [congruence|reflexivity]. }
  destruct (cleared_frame st) as [_ [_ [_ [_ [Ht _]]]]].
  destruct (startScheduler_cases env now st) as [E|[[e E]|[d E]]];
    rewrite E; cbn; rewrite Ht; [exact Hs|exact Hs|].
  apply in_or_app. now left.
Qed.

(** C1 fails on the code.  The server starts at the epoch (first run due at
    09:00) and the schedule is moved to 10:00 an hour later: the first
    timeout is still live beside the new one, both come due, two posts are
    generated, and two recurring intervals are left running, of which
    [scheduleInterval] refers to the second only. *)
Theorem schedule_update_keeps_old_first_run :
  List.map due (timers Example.started) = [(Timer.FirstRun, 9 * msPerHour)]
  /\ List.map due (timers Example.rescheduled)
     = [(Timer.FirstRun, 9 * msPerHour); (Timer.FirstRun, 10 * msPerHour)]
  /\ let fired :=
       run Example.env
         [Fire 0 (9 * msPerHour) (9 * msPerHour) (1 # 2) (Resolves None);
          Fire 1 (10 * msPerHour) (10 * msPerHour) (1 # 2) (Resolves None)]
         Example.rescheduled in
     List.map fst (pendingPosts fired) = ["32400000"; "36000000"]
     /\ List.map Timer.what (timers fired) = [Timer.Recurring; Timer.Recurring]
     /\ List.map Timer.handle (timers fired) = [2; 3]%nat
     /\ scheduleInterval fired = Some 3%nat.
Proof. vm_compute. repeat split. Qed.

(** Once the first run is spent and the recurring interval is the armed
    timer, a schedule update does cancel it: one timer is live afterwards. *)
Lemma schedule_update_cancels_recurring :
  let recurring :=
    run Example.env [Fire 0 (9 * msPerHour) (9 * msPerHour) (1 # 2) (Resolves None)]
      Example.started in
  List.map due (timers recurring) = [(Timer.Recurring, (9 + 24) * msPerHour)]
  /\ List.map due
       (timers (snd (post_api_schedule Example.env (Some "daily") (Some "10:00")
                       (Some "UTC") (9 * msPerHour + 1) recurring)))
     = [(Timer.FirstRun, 10 * msPerHour + 1)].
Proof. vm_compute. split; reflexivity. Qed.

Lemma orDefault_minutes m : JS.orDefault (Some (JS.Num m)) 0 = m.
Proof. unfold JS.orDefault. destruct (Z.eqb_spec m 0); congruence. Qed.

Lemma orDefault_hours h : h <> 0 -> JS.orDefault (Some (JS.Num h)) 9 = h.
Proof. unfold JS.orDefault. destruct (Z.eqb_spec h 0); congruence. Qed.

(** The reading [nextRunAt] returns, from the two numbers handed to
    [setHours]. *)
Lemma nextRunAt_unfold time u :
  nextRunAt time u =
    let target :=
      setHours u (JS.orDefault (fst (parseTime time)) 9)
        (JS.orDefault (snd (parseTime time)) 0) in
    if target <=? u then target + msPerDay else target.
Proof. unfold nextRunAt, nextDate. destruct (parseTime time); reflexivity. Qed.

Lemma nextRunAt_window time u :
  0 <= JS.orDefault (fst (parseTime time)) 9 < 24 ->
  0 <= JS.orDefault (snd (parseTime time)) 0 < 60 ->
  u < nextRunAt time u <= u + msPerDay.
Proof.
  intros Hh Hm. rewrite nextRunAt_unfold. cbv zeta.
  set (h := JS.orDefault (fst (parseTime time)) 9) in *.
  set (m := JS.orDefault (snd (parseTime time)) 0) in *.
  unfold setHours, startOfDay.
  change msPerDay with 86400000. change msPerHour with 3600000.
  change msPerMinute with 60000.
  destruct (Z.leb_spec (u - u mod 86400000 + h * 3600000 + m * 60000) u);
    Z.div_mod_to_equations; lia.
Qed.

Lemma nextRunAt_fields time u :
  0 <= JS.orDefault (fst (parseTime time)) 9 < 24 ->
  0 <= JS.orDefault (snd (parseTime time)) 0 < 60 ->
  getHours (nextRunAt time u) = JS.orDefault (fst (parseTime time)) 9
  /\ getMinutes (nextRunAt time u) = JS.orDefault (snd (parseTime time)) 0.
Proof.
  intros Hh Hm. rewrite nextRunAt_unfold. cbv zeta.
  destruct (_ <=? u).
  - pose proof (setHours_fields u _ _ 1 Hh Hm) as H.
    now rewrite Z.mul_1_l in H.
  - pose proof (setHours_fields u _ _ 0 Hh Hm) as H.
    now rewrite Z.mul_0_l, Z.add_0_r in H.
Qed.

Lemma nextRunOn_unfold env time userTime :
  nextRunOn env time userTime =
    match TimeClip (UTC env (setHours (LocalTime env userTime)
                               (JS.orDefault (fst (parseTime time)) 9)
                               (JS.orDefault (snd (parseTime time)) 0))) with
    | None => None
    | Some nextRun =>
        if nextRun <=? userTime
        then TimeClip (UTC env (nextDate (LocalTime env nextRun)))
        else Some nextRun
    end.
Proof. unfold nextRunOn. destruct (parseTime time); reflexivity. Qed.

Lemma TimeClip_in_range t : Z.abs t <= maxTime -> TimeClip t = Some t.
Proof.
  intros H. unfold TimeClip. destruct (Z.leb_spec (Z.abs t) maxTime); [reflexivity|lia].
Qed.

(** On a host whose zone keeps one offset, and for an hour below 24 and a
    minute below 60 handed to [setHours], [nextRunOn] is [nextRunAt] on the
    local time line. *)
Lemma nextRunOn_fixed_offset env c time wall :
  fixedOffsetHost env c -> fourDigitYear wall ->
  0 <= JS.orDefault (fst (parseTime time)) 9 < 24 ->
  0 <= JS.orDefault (snd (parseTime time)) 0 < 60 ->
  TimeClip (UTC env wall) = Some (wall - c)
  /\ nextRunOn env time (wall - c) = Some (nextRunAt time wall - c).
Proof.
  intros [Hc Hz] Hw Hh Hm. unfold fourDigitYear in Hw.
  assert (UTC env wall = wall - c) as Eu by (unfold UTC; now rewrite Hz).
  assert (forall t, LocalTime env (t - c) = t) as El
    by (intros t; unfold LocalTime; rewrite Hz; lia).
  assert (forall t, UTC env t = t - c) as Eu' by (intros t; unfold UTC; now rewrite Hz).
  change msPerDay with 86400000 in Hc.
  split.
  - rewrite Eu. apply TimeClip_in_range. unfold maxTime. lia.
  - rewrite nextRunOn_unfold, nextRunAt_unfold, El, Eu'. cbv zeta.
    set (h := JS.orDefault (fst (parseTime time)) 9) in *.
    set (m := JS.orDefault (snd (parseTime time)) 0) in *.
    assert (wall - 86400000 < setHours wall h m < wall + 86400000) as Hs.
    { unfold setHours, startOfDay.
      change msPerDay with 86400000. change msPerHour with 3600000.
      change msPerMinute with 60000. Z.div_mod_to_equations. lia. }
    rewrite TimeClip_in_range by (unfold maxTime; lia).
    destruct (Z.leb_spec (setHours wall h m) wall) as [Hle|Hgt].
    + destruct (Z.leb_spec (setHours wall h m - c) (wall - c)); [|lia].
      rewrite El, Eu'. unfold nextDate. change msPerDay with 86400000.
      rewrite TimeClip_in_range by (unfold maxTime; lia). reflexivity.
    + destruct (Z.leb_spec (setHours wall h m - c) (wall - c)); [lia|reflexivity].
Qed.

(** [startScheduler] with an active schedule in a known zone, on a host
    whose zone keeps one offset, at a reading with a four-digit year, for an
    hour below 24 and a minute below 60 handed to [setHours]: the interval
    [scheduleInterval] refers to is cleared, every other timer stays, and
    one first-run timeout is added, which runs with the delay computed. *)
Lemma startScheduler_timers env c now st wall :
  Schedule.isActive (schedule st) = true ->
  fixedOffsetHost env c ->
  userTimeAt env (Schedule.timezone (schedule st)) now = Some wall ->
  fourDigitYear wall ->
  0 <= JS.orDefault (fst (parseTime (Schedule.time (schedule st)))) 9 < 24 ->
  0 <= JS.orDefault (snd (parseTime (Schedule.time (schedule st)))) 0 < 60 ->
  timers (fst (startScheduler env now st))
  = (survivors st ++ [firstRunTimer now wall st])%list
  /\ scheduleInterval (fst (startScheduler env now st)) = scheduleInterval st
  /\ schedule (fst (startScheduler env now st)) = schedule st
  /\ snd (startScheduler env now st) = None.
Proof.
  intros on Hhost Hu Hw Hh Hm.
  destruct (nextRunOn_fixed_offset env c _ wall Hhost Hw Hh Hm) as [Hclip Hnext].
  pose proof (nextRunAt_window _ wall Hh Hm) as Hwin.
  destruct (cleared_frame st) as [_ [_ [Hs [Hi [Ht Hn]]]]].
  unfold startScheduler. fold (cleared st).
  rewrite Hs, on, Hu, Hclip, Hnext. cbn [negb fst snd arm timers scheduleInterval schedule].
  rewrite Ht, Hn, Hi, Hs. unfold firstRunTimer, effectiveDelay, TIMEOUT_MAX.
  replace (nextRunAt (Schedule.time (schedule st)) wall - c - (wall - c))
    with (nextRunAt (Schedule.time (schedule st)) wall - wall) by lia.
  change msPerDay with 86400000 in Hwin.
  destruct (Z.leb_spec 1 (nextRunAt (Schedule.time (schedule st)) wall - wall)); [|lia].
  destruct (Z.leb_spec (nextRunAt (Schedule.time (schedule st)) wall - wall) 2147483647);
    [|lia].
  repeat split.
Qed.

(** For an hour from 1 to 23 the configured time is honoured: the first run
    is aimed at the next wall-clock reading [h:m:00], strictly after the
    current one and at most a day away. *)
Lemma nextRunAt_honours_nonzero_hour time u h m :
  parseTime time = (Some (JS.Num h), Some (JS.Num m)) ->
  1 <= h < 24 -> 0 <= m < 60 ->
  getHours (nextRunAt time u) = h
  /\ getMinutes (nextRunAt time u) = m
  /\ u < nextRunAt time u <= u + msPerDay.
Proof.
  intros Hp Hh Hm.
  assert (JS.orDefault (fst (parseTime time)) 9 = h) as Eh
    by (rewrite Hp; apply orDefault_hours; lia).
  assert (JS.orDefault (snd (parseTime time)) 0 = m) as Em
    by (rewrite Hp; apply orDefault_minutes).
  destruct (nextRunAt_fields time u) as [H1 H2]; try lia.
  pose proof (nextRunAt_window time u) as H3.
  rewrite Eh, Em in *. repeat split; try assumption; apply H3; lia.
Qed.

(** The scenario of the schedule [{daily, "09:00", "UTC"}] read at 09:30 UTC
    of day [d]: the first run is aimed at 09:00 of day [d + 1]. *)
Lemma next_run_0900_at_0930 env d ms :
  0 <= ms < 1000 ->
  zoneOffset env "UTC" (d * msPerDay + 9 * msPerHour + 30 * msPerMinute + ms) = Some 0 ->
  exists u,
    userTimeAt env "UTC" (d * msPerDay + 9 * msPerHour + 30 * msPerMinute + ms) = Some u
    /\ u = d * msPerDay + 9 * msPerHour + 30 * msPerMinute
    /\ nextRunAt "09:00" u = (d + 1) * msPerDay + 9 * msPerHour.
Proof.
  intros Hms Hz. unfold userTimeAt. rewrite Hz.
  eexists. split; [reflexivity|].
  assert ((d * msPerDay + 9 * msPerHour + 30 * msPerMinute + ms + 0) / 1000 * 1000
          = d * msPerDay + 9 * msPerHour + 30 * msPerMinute) as ->.
  { change msPerDay with 86400000. change msPerHour with 3600000.
    change msPerMinute with 60000. Z.div_mod_to_equations. lia. }
  split; [reflexivity|].
  rewrite nextRunAt_unfold.
  change (parseTime "09:00") with (Some (JS.Num 9), Some (JS.Num 0)).
  cbn [fst snd JS.orDefault Z.eqb]. cbv zeta.
  unfold setHours, startOfDay.
  change msPerDay with 86400000. change msPerHour with 3600000.
  change msPerMinute with 60000.
  match goal with |- context [?a <=? ?b] => destruct (Z.leb_spec a b) end;
    Z.div_mod_to_equations; lia.
Qed.

(** C8 fails on the code for the hour 0.  With the schedule
    [{daily, "00:30", "UTC"}] set at the epoch (00:00:00 UTC), the time
    parses to hour 0 and minute 30, yet the first run is aimed at 09:30 of
    that day, nine and a half hours away, where 00:30 is thirty minutes
    away. *)
Theorem half_past_midnight_is_armed_for_half_past_nine :
  parseTime "00:30" = (Some (JS.Num 0), Some (JS.Num 30))
  /\ nextRunAt "00:30" 0 = 9 * msPerHour + 30 * msPerMinute
  /\ List.map due
       (timers (snd (post_api_schedule Example.env (Some "daily") (Some "00:30")
                       (Some "UTC") 0 initialState)))
     = [(Timer.FirstRun, 9 * msPerHour + 30 * msPerMinute)].
Proof. vm_compute. repeat split. Qed.

Lemma nextRunAt_whole_minute time u : nextRunAt time u mod msPerMinute = 0.
Proof.
  rewrite nextRunAt_unfold. cbv zeta. unfold setHours, startOfDay.
  change msPerDay with 86400000. change msPerHour with 3600000.
  change msPerMinute with 60000.
  destruct (_ <=? u); Z.div_mod_to_equations; lia.
Qed.

(** What [startScheduler] arms when [setHours] is handed the hour [H] below
    24 and the minute [M] below 60, on a host whose zone keeps one offset:
    one first-run timeout, whose delay leads from the wall-clock reading
    [wall] to the next reading [H:M:00.000], at most a day away. *)
Lemma startScheduler_aims env c now st wall :
  Schedule.isActive (schedule st) = true ->
  fixedOffsetHost env c ->
  userTimeAt env (Schedule.timezone (schedule st)) now = Some wall ->
  fourDigitYear wall ->
  0 <= JS.orDefault (fst (parseTime (Schedule.time (schedule st)))) 9 < 24 ->
  0 <= JS.orDefault (snd (parseTime (Schedule.time (schedule st)))) 0 < 60 ->
  exists t,
    timers (fst (startScheduler env now st)) = (survivors st ++ [t])%list
    /\ snd (startScheduler env now st) = None
    /\ Timer.what t = Timer.FirstRun
    /\ Timer.armedAt t = now
    /\ getHours (wall + Timer.delay t)
       = JS.orDefault (fst (parseTime (Schedule.time (schedule st)))) 9
    /\ getMinutes (wall + Timer.delay t)
       = JS.orDefault (snd (parseTime (Schedule.time (schedule st)))) 0
    /\ (wall + Timer.delay t) mod msPerMinute = 0
    /\ wall < wall + Timer.delay t <= wall + msPerDay.
Proof.
  intros on Hhost Hu Hw Hh Hm.
  destruct (startScheduler_timers env c now st wall on Hhost Hu Hw Hh Hm)
    as [Ht [_ [_ Hnone]]].
  exists (firstRunTimer now wall st).
  split; [exact Ht|]. split; [exact Hnone|].
  split; [reflexivity|]. split; [reflexivity|].
  unfold firstRunTimer. cbn [Timer.delay].
  replace (wall + (nextRunAt (Schedule.time (schedule st)) wall - wall))
    with (nextRunAt (Schedule.time (schedule st)) wall) by lia.
  destruct (nextRunAt_fields (Schedule.time (schedule st)) wall Hh Hm) as [H1 H2].
  split; [exact H1|]. split; [exact H2|].
  split; [apply nextRunAt_whole_minute|now apply nextRunAt_window].
Qed.

(** C10. For every active schedule whose time parses to hour 0 and to a
    minute from 0 to 59, in a known zone, [startScheduler] arms its
    first-run timeout for hour 9 at the parsed minute, seconds 0, of the
    zone's wall clock (today when that is still ahead, tomorrow otherwise),
    never for hour 0.  The delay is measured on a host whose own zone keeps
    one offset, at a wall-clock reading with a four-digit year. *)
Theorem hour_zero_is_armed_for_nine env c now st wall m :
  Schedule.isActive (schedule st) = true ->
  fixedOffsetHost env c ->
  userTimeAt env (Schedule.timezone (schedule st)) now = Some wall ->
  fourDigitYear wall ->
  parseTime (Schedule.time (schedule st)) = (Some (JS.Num 0), Some (JS.Num m)) ->
  0 <= m < 60 ->
  exists t,
    timers (fst (startScheduler env now st)) = (survivors st ++ [t])%list
    /\ snd (startScheduler env now st) = None
    /\ Timer.what t = Timer.FirstRun
    /\ Timer.armedAt t = now
    /\ getHours (wall + Timer.delay t) = 9
    /\ getMinutes (wall + Timer.delay t) = m
    /\ (wall + Timer.delay t) mod msPerMinute = 0
    /\ wall < wall + Timer.delay t <= wall + msPerDay.
Proof.
  intros on Hhost Hu Hw Hp Hm.
  assert (JS.orDefault (fst (parseTime (Schedule.time (schedule st)))) 9 = 9) as E9
    by (rewrite Hp; reflexivity).
  assert (JS.orDefault (snd (parseTime (Schedule.time (schedule st)))) 0 = m) as Em
    by (rewrite Hp; apply orDefault_minutes).
  destruct (startScheduler_aims env c now st wall on Hhost Hu Hw) as [t Ht];
    [rewrite E9; lia | rewrite Em; exact Hm |].
  rewrite E9, Em in Ht. now exists t.
Qed.

Lemma hour_zero_is_armed_for_nine_witness :
  exists t,
    timers (fst (startScheduler Example.env 0 Example.halfPastMidnight))
      = (survivors Example.halfPastMidnight ++ [t])%list
    /\ snd (startScheduler Example.env 0 Example.halfPastMidnight) = None
    /\ Timer.what t = Timer.FirstRun
    /\ Timer.armedAt t = 0
    /\ getHours (0 + Timer.delay t) = 9
    /\ getMinutes (0 + Timer.delay t) = 30
    /\ (0 + Timer.delay t) mod msPerMinute = 0
    /\ 0 < 0 + Timer.delay t <= 0 + msPerDay.
Proof.
  apply (hour_zero_is_armed_for_nine Example.env 0 0 Example.halfPastMidnight 0 30);
    try reflexivity.
  - split; [discriminate|]. intros t isUTC. reflexivity.
  - split; [discriminate|reflexivity].
  - split; [discriminate|reflexivity].
Defined.

(* ===================================================================== *)
(** * More on the built-ins: strings and maps *)
(* ===================================================================== *)

Lemma slice0_length n s : (String.length (JS.slice0 n s) <= n)%nat.
Proof.
  unfold JS.slice0. revert s.
  induction n as [|n IH]; intros [|c r]; simpl; try lia.
  specialize (IH r). lia.
Qed.

Lemma trimEnd_cons c r :
  JS.trimEnd (String c r)
  = match JS.trimEnd r with
    | EmptyString => if JS.isSpace c then EmptyString else String c EmptyString
    | r' => String c r'
    end.
Proof. reflexivity. Qed.

Lemma trimEnd_idempotent s : JS.trimEnd (JS.trimEnd s) = JS.trimEnd s.
Proof.
  induction s as [|c r IH]; [reflexivity|].
  rewrite trimEnd_cons. destruct (JS.trimEnd r) as [|c' r'] eqn:E.
  - destruct (JS.isSpace c) eqn:Ec; [reflexivity|].
    rewrite trimEnd_cons. cbn [JS.trimEnd]. now rewrite Ec.
  - rewrite trimEnd_cons. now rewrite IH.
Qed.

Lemma trimStart_clean s : startsClean (JS.trimStart s).
Proof.
  induction s as [|c r IH]; simpl; [exact I|].
  destruct (JS.isSpace c) eqn:E; [exact IH|exact E].
Qed.

Lemma trimStart_fixed s : startsClean s -> JS.trimStart s = s.
Proof. destruct s as [|c r]; simpl; [reflexivity|now intros ->]. Qed.

Lemma trimEnd_clean s : startsClean s -> startsClean (JS.trimEnd s).
Proof.
  destruct s as [|c r]; simpl; [exact id|]. intros E.
  destruct (JS.trimEnd r); rewrite ?E; exact E.
Qed.

Lemma trim_idempotent s : JS.trim (JS.trim s) = JS.trim s.
Proof.
  unfold JS.trim.
  rewrite (trimStart_fixed (JS.trimEnd (JS.trimStart s))).
  - apply trimEnd_idempotent.
  - apply trimEnd_clean, trimStart_clean.
Qed.

Section MoreMapFacts.
Context {V : Type}.
Implicit Types (m : JS.Map.t V) (k : string) (v : V).

Lemma get_In k v m : JS.Map.get k m = Some v -> In (k, v) m.
Proof.
  induction m as [|[k' v'] r IH]; simpl; [discriminate|].
  destruct (String.eqb_spec k k') as [->|ne].
  - intros [= ->]. now left.
  - intros H. right. now apply IH.
Qed.

Lemma get_None_iff k m : JS.Map.get k m = None <-> ~ In k (keys m).
Proof.
  induction m as [|[k' v'] r IH]; simpl; [tauto|].
  destruct (String.eqb_spec k k') as [->|ne].
  - split; [discriminate|]. intros H. exfalso. apply H. now left.
  - rewrite IH. split; [intros H [E|Hin]; [congruence|tauto]|tauto].
Qed.

Lemma In_get k v m : NoDup (keys m) -> In (k, v) m -> JS.Map.get k m = Some v.
Proof.
  induction m as [|[k' v'] r IH]; simpl; [tauto|].
  intros Hnd [[= -> ->]|Hin].
  - now rewrite String.eqb_refl.
  - inversion Hnd as [|? ? Hnotin Hnd']; subst.
    destruct (String.eqb_spec k k') as [->|ne]; [|now apply IH].
    exfalso. apply Hnotin. change (In (fst (k', v)) (List.map fst r)).
    now apply in_map.
Qed.

Lemma In_set k v m kv :
  In kv (JS.Map.set k v m) -> kv = (k, v) \/ In kv m.
Proof.
  induction m as [|[k' v'] r IH]; simpl.
  - intros [<-|[]]. now left.
  - destruct (String.eqb_spec k k') as [->|ne]; simpl.
    + intros [<-|H]; [now left|now right; right].
    + intros [<-|H]; [now right; left|]. destruct (IH H); [now left|now right; right].
Qed.

Lemma In_keys_set k v m k' :
  In k' (keys (JS.Map.set k v m)) <-> k' = k \/ In k' (keys m).
Proof.
  induction m as [|[k0 v0] r IH]; simpl.
  - intuition congruence.
  - destruct (String.eqb_spec k k0) as [->|ne]; simpl.
    + intuition congruence.
    + fold (keys (JS.Map.set k v r)). fold (keys r). rewrite IH.
      intuition congruence.
Qed.

Lemma NoDup_set k v m : NoDup (keys m) -> NoDup (keys (JS.Map.set k v m)).
Proof.
  induction m as [|[k0 v0] r IH]; simpl; intros Hnd.
  - constructor; [exact (fun H => H)|constructor].
  - inversion Hnd as [|? ? Hnotin Hnd']; subst.
    destruct (String.eqb_spec k k0) as [->|ne]; simpl.
    + now constructor.
    + constructor; [|now apply IH].
      fold (keys (JS.Map.set k v r)). rewrite In_keys_set.
      intros [E|Hin]; [congruence|contradiction].
Qed.

Lemma In_remove k m kv : In kv (JS.Map.remove k m) -> In kv m.
Proof.
  induction m as [|[k0 v0] r IH]; simpl; [tauto|].
  destruct (String.eqb_spec k k0) as [->|ne]; simpl; [tauto|].
  intros [<-|H]; [now left|right; now apply IH].
Qed.

Lemma In_keys_remove k m k' : In k' (keys (JS.Map.remove k m)) -> In k' (keys m).
Proof.
  unfold keys. rewrite !in_map_iff. intros [kv [E Hin]].
  exists kv. split; [exact E|]. now apply In_remove with k.
Qed.

Lemma NoDup_remove k m : NoDup (keys m) -> NoDup (keys (JS.Map.remove k m)).
Proof.
  induction m as [|[k0 v0] r IH]; simpl; intros Hnd; [constructor|].
  inversion Hnd as [|? ? Hnotin Hnd']; subst.
  destruct (String.eqb_spec k k0) as [->|ne]; simpl; [exact Hnd'|].
  constructor; [|now apply IH].
  intros Hin. apply Hnotin. now apply In_keys_remove with k.
Qed.

Lemma get_remove_same k m : NoDup (keys m) -> JS.Map.get k (JS.Map.remove k m) = None.
Proof.
  induction m as [|[k0 v0] r IH]; simpl; intros Hnd; [reflexivity|].
  inversion Hnd as [|? ? Hnotin Hnd']; subst.
  destruct (String.eqb_spec k k0) as [->|ne]; simpl.
  - now apply get_None_iff.
  - destruct (String.eqb_spec k k0); [contradiction|now apply IH].
Qed.

Lemma get_remove_other k k' m :
  k <> k' -> JS.Map.get k (JS.Map.remove k' m) = JS.Map.get k m.
Proof.
  intros ne. induction m as [|[k0 v0] r IH]; simpl; [reflexivity|].
  destruct (String.eqb_spec k' k0) as [->|ne0]; simpl.
  - destruct (String.eqb_spec k k0); [contradiction|reflexivity].
  - destruct (String.eqb_spec k k0); [reflexivity|exact IH].
Qed.

Lemma set_get_same k v m : JS.Map.get k m = Some v -> JS.Map.set k v m = m.
Proof.
  induction m as [|[k0 v0] r IH]; simpl; [discriminate|].
  destruct (String.eqb_spec k k0) as [->|ne].
  - now intros [= ->].
  - intros H. now rewrite IH.
Qed.

Lemma set_set k v v' m : JS.Map.set k v (JS.Map.set k v' m) = JS.Map.set k v m.
Proof.
  induction m as [|[k0 v0] r IH]; simpl.
  - now rewrite String.eqb_refl.
  - destruct (String.eqb_spec k k0) as [->|ne]; simpl.
    + now rewrite String.eqb_refl.
    + destruct (String.eqb_spec k k0); [contradiction|now rewrite IH].
Qed.

Lemma In_values_set k v m v' :
  In v' (JS.Map.values (JS.Map.set k v m)) -> v' = v \/ In v' (JS.Map.values m).
Proof.
  unfold JS.Map.values. rewrite !in_map_iff. intros [kv [E Hin]].
  apply In_set in Hin as [->|Hin]; [now left|].
  right. exists kv. now split.
Qed.

End MoreMapFacts.

(* ===================================================================== *)
(** * What one event does to the stores *)
(* ===================================================================== *)

Lemma clip_length text : (String.length (clip text) <= 280)%nat.
Proof.
  unfold clip. destruct (Nat.ltb_spec 280 (String.length text)); [|assumption].
  pose proof (slice0_length 279 text). lia.
Qed.

Lemma generatePost_length env reply topic content :
  generatePost env reply topic = Returns content ->
  (String.length content <= 280)%nat.
Proof.
  unfold generatePost. destruct (negb (openRouterClient env)).
  - intros [= <-]. apply clip_length.
  - destruct reply as [e|c]; [discriminate|]. intros [= <-]. apply clip_length.
Qed.

Lemma postToX_published env reply rid :
  postToX env reply = Published rid -> createTwitterClient env = true.
Proof.
  unfold postToX. destruct (createTwitterClient env); [reflexivity|discriminate].
Qed.

(** A generation that stores a post: the post is built from an active topic
    and a text of at most 280 characters. *)
Lemma generateFrom_new env now ts rnd reply st post st' :
  generateFrom env now ts rnd reply st = Returns (Some (post, st')) ->
  exists t content,
    In t (activeTopics st)
    /\ (String.length content <= 280)%nat
    /\ post = newPost now ts t content
    /\ st' = store post st.
Proof.
  unfold generateFrom. fold (activeTopics st).
  destruct (List.length (activeTopics st) =? 0)%nat; [discriminate|].
  destruct (JS.at_ _ _) as [t|] eqn:Eat; [|discriminate].
  destruct (generatePost _ _ _) as [content|e] eqn:Eg; [|discriminate].
  intros [= <- <-]. exists t, content.
  split; [|split; [now apply generatePost_length with env reply (Some (Topic.name t))|split; reflexivity]].
  unfold JS.at_ in Eat. destruct (_ <? 0); [discriminate|].
  now apply nth_error_In with (Z.to_nat (JS.randomIndex rnd (List.length (activeTopics st)))).
Qed.

Lemma generateScheduledPost_posts env e now ts rnd reply st :
  stampOf e = Some now ->
  PostsChange env e (pendingPosts st)
    (pendingPosts (generateScheduledPost env now ts rnd reply st)).
Proof.
  intros Hs. unfold generateScheduledPost.
  destruct (generateFrom env now ts rnd reply st) as [[[post st']|]|err] eqn:E;
    try constructor.
  apply generateFrom_new in E as [t [content [_ [Hlen [-> ->]]]]].
  unfold store. cbn. now apply PostsNew.
Qed.

Lemma handle_posts env r st :
  PostsChange env (Req r) (pendingPosts st) (pendingPosts (snd (handle env r st))).
Proof.
  destruct r; cbn [handle].
  - unfold post_api_topics. destruct name as [s|]; [|constructor].
    destruct (JS.truthy s); constructor.
  - constructor.
  - unfold post_api_topics_toggle. destruct (JS.truthy id); [|constructor].
    cbn. destruct (JS.Map.get id (topics st)); constructor.
  - unfold delete_api_topics. destruct (JS.truthy id); [|constructor].
    cbn. destruct (JS.Map.has id (topics st)); constructor.
  - unfold post_api_schedule.
    destruct frequency as [f|]; [|constructor].
    destruct time as [t|]; [|constructor].
    destruct timezone as [z|]; [|constructor].
    destruct (JS.truthy f && JS.truthy t && JS.truthy z); [|constructor].
    cbn [negb].
    match goal with
    | |- context [startScheduler env now ?s] =>
        pose proof (startScheduler_pendingPosts env now s) as Hp;
        destruct (startScheduler env now s) as [st1 [err|]]
    end; cbn in *; rewrite Hp; constructor.
  - constructor.
  - constructor.
  - unfold post_api_posts_approve. destruct (JS.truthy id); [|constructor].
    cbn [negb].
    destruct (JS.Map.get id (pendingPosts st)) as [post|] eqn:Hget; [|constructor].
    destruct (postToX env reply) as [rid|err] eqn:Ep; cbn; [|constructor].
    apply PostsStatus; [exact Hget|]. right. split; [reflexivity|].
    now apply postToX_published with reply rid.
  - unfold post_api_posts_reject. destruct (JS.truthy id); [|constructor].
    cbn [negb].
    destruct (JS.Map.get id (pendingPosts st)) as [post|] eqn:Hget; [|constructor].
    cbn. apply PostsStatus; [exact Hget|now left].
  - unfold post_api_generate_post.
    destruct (generateFrom env now ts rnd reply st) as [[[post st']|]|err] eqn:E;
      try constructor.
    apply generateFrom_new in E as [t [content [_ [Hlen [-> ->]]]]].
    unfold store. cbn. now apply PostsNew.
Qed.

Lemma step_posts env e st :
  PostsChange env e (pendingPosts st) (pendingPosts (step env e st)).
Proof.
  destruct e as [r|h now ts rnd reply]; cbn [step]; [apply handle_posts|].
  unfold fire. destruct (find _ (timers st)) as [t|]; [|constructor].
  destruct (Timer.what t).
  - rewrite setupRecurringSchedule_pendingPosts.
    change (pendingPosts st) with (pendingPosts (dropTimer h st)) at 1.
    now apply generateScheduledPost_posts.
  - now apply generateScheduledPost_posts.
Qed.

Lemma generateScheduledPost_frame env now ts rnd reply st :
  let st' := generateScheduledPost env now ts rnd reply st in
  topics st' = topics st /\ schedule st' = schedule st
  /\ scheduleInterval st' = scheduleInterval st
  /\ timers st' = timers st /\ nextHandle st' = nextHandle st.
Proof.
  cbv zeta. unfold generateScheduledPost.
  destruct (generateFrom env now ts rnd reply st) as [[[post st']|]|err] eqn:E;
    try (repeat split; reflexivity).
  apply generateFrom_new in E as [t [content [_ [_ [_ ->]]]]].
  repeat split; reflexivity.
Qed.

Lemma startScheduler_topics env now st :
  topics (fst (startScheduler env now st)) = topics st
  /\ schedule (fst (startScheduler env now st)) = schedule st.
Proof.
  destruct (cleared_frame st) as [Ht [_ [Hs _]]].
  destruct (startScheduler_cases env now st) as [E|[[e E]|[d E]]];
    rewrite E; split; assumption.
Qed.

Lemma step_topics env e st : TopicsChange (topics st) (topics (step env e st)).
Proof.
  destruct e as [r|h now ts rnd reply]; cbn [step].
  - destruct r; cbn [handle]; try constructor.
    + unfold post_api_topics. destruct name as [s|]; [|constructor].
      destruct (JS.truthy s) eqn:E; [|constructor].
      cbn. apply TopicsNew. now apply truthy_true_iff.
    + unfold post_api_topics_toggle. destruct (JS.truthy id); [|constructor].
      cbn [negb]. destruct (JS.Map.get id (topics st)) as [t|] eqn:Hget; [|constructor].
      cbn. now apply TopicsToggled.
    + unfold delete_api_topics. destruct (JS.truthy id); [|constructor].
      cbn [negb]. destruct (JS.Map.has id (topics st)) eqn:Hhas; [|constructor].
      cbn. now apply TopicsRemoved.
    + unfold post_api_schedule.
      destruct frequency as [f|]; [|constructor].
      destruct time as [t|]; [|constructor].
      destruct timezone as [z|]; [|constructor].
      destruct (JS.truthy f && JS.truthy t && JS.truthy z); [|constructor].
      cbn [negb].
      match goal with
      | |- context [startScheduler env now ?s] =>
          destruct (startScheduler_topics env now s) as [Hp _];
          destruct (startScheduler env now s) as [st1 [err|]]
      end; cbn in *; rewrite Hp; constructor.
    + unfold post_api_posts_approve. destruct (JS.truthy id); [|constructor].
      cbn [negb]. destruct (JS.Map.get id (pendingPosts st)); [|constructor].
      destruct (postToX env reply); constructor.
    + unfold post_api_posts_reject. destruct (JS.truthy id); [|constructor].
      cbn [negb]. destruct (JS.Map.get id (pendingPosts st)); constructor.
    + unfold post_api_generate_post.
      destruct (generateFrom env now ts rnd reply st) as [[[post st']|]|err] eqn:E;
        try constructor.
      apply generateFrom_new in E as [t [content [_ [_ [_ ->]]]]]. constructor.
  - unfold fire. destruct (find _ (timers st)) as [t|]; [|constructor].
    destruct (Timer.what t).
    + unfold setupRecurringSchedule.
      destruct (generateScheduledPost_frame env now ts rnd reply (dropTimer h st))
        as [Ht _].
      destruct (Schedule.isActive _); cbn; rewrite Ht; constructor.
    + destruct (generateScheduledPost_frame env now ts rnd reply st) as [Ht _].
      rewrite Ht. constructor.
Qed.

(** A property kept by every event is kept by every run. *)
Lemma run_invariant env (P : State -> Prop) :
  (forall e st, P st -> P (step env e st)) ->
  forall es st, P st -> P (run env es st).
Proof.
  intros Hstep es. unfold run.
  induction es as [|e es IH]; intros st H; cbn [fold_left]; [exact H|].
  apply IH. now apply Hstep.
Qed.

(* ===================================================================== *)
(** * Invariants of the stores over whole runs *)
(* ===================================================================== *)

Lemma Forall_set {V : Type} (P : string * V -> Prop) k v (m : JS.Map.t V) :
  Forall P m -> P (k, v) -> Forall P (JS.Map.set k v m).
Proof.
  rewrite !Forall_forall. intros Hm Hkv kv Hin.
  apply In_set in Hin as [->|Hin]; [exact Hkv|now apply Hm].
Qed.

Lemma Forall_remove {V : Type} (P : string * V -> Prop) k (m : JS.Map.t V) :
  Forall P m -> Forall P (JS.Map.remove k m).
Proof.
  rewrite !Forall_forall. intros Hm kv Hin. apply Hm. now apply In_remove with k.
Qed.

Lemma Forall_values_set {V : Type} (P : V -> Prop) k v (m : JS.Map.t V) :
  Forall P (JS.Map.values m) -> P v -> Forall P (JS.Map.values (JS.Map.set k v m)).
Proof.
  rewrite !Forall_forall. intros Hm Hv v' Hin.
  apply In_values_set in Hin as [->|Hin]; [exact Hv|now apply Hm].
Qed.

Lemma get_In_values {V : Type} k v (m : JS.Map.t V) :
  JS.Map.get k m = Some v -> In v (JS.Map.values m).
Proof.
  intros H. apply get_In in H. unfold JS.Map.values.
  change v with (snd (k, v)). now apply in_map.
Qed.

Lemma PostsChange_keyed env e m m' :
  PostsChange env e m m' ->
  NoDup (keys m) /\ Forall (fun kv => PendingPost.id (snd kv) = fst kv) m ->
  NoDup (keys m') /\ Forall (fun kv => PendingPost.id (snd kv) = fst kv) m'.
Proof.
  intros H [Hnd Hown]. destruct H as [|id post s Hget _|now ts t content _ _].
  - now split.
  - split; [now apply NoDup_set|]. apply Forall_set; [exact Hown|].
    apply get_In in Hget. rewrite Forall_forall in Hown.
    exact (Hown _ Hget).
  - split; [now apply NoDup_set|]. now apply Forall_set.
Qed.

Lemma TopicsChange_keyed m m' :
  TopicsChange m m' ->
  NoDup (keys m) /\ Forall (fun kv => Topic.id (snd kv) = fst kv) m ->
  NoDup (keys m') /\ Forall (fun kv => Topic.id (snd kv) = fst kv) m'.
Proof.
  intros H [Hnd Hown]. destruct H as [|now ts name _|id t Hget|id _].
  - now split.
  - split; [now apply NoDup_set|]. now apply Forall_set.
  - split; [now apply NoDup_set|]. apply Forall_set; [exact Hown|].
    apply get_In in Hget. rewrite Forall_forall in Hown.
    exact (Hown _ Hget).
  - split; [now apply NoDup_remove|now apply Forall_remove].
Qed.

(** X1. Over every run of requests and timer firings, both stores stay
    maps: no id is stored twice, and every topic and every post sits under
    its own [id] field. *)
Theorem stores_stay_well_keyed env es st :
  wellKeyed st -> wellKeyed (run env es st).
Proof.
  apply run_invariant. clear es st.
  intros e st [Ht [Hp [Hto Hpo]]].
  destruct (PostsChange_keyed env e _ _ (step_posts env e st) (conj Hp Hpo)).
  destruct (TopicsChange_keyed _ _ (step_topics env e st) (conj Ht Hto)).
  repeat split; assumption.
Qed.

Lemma stores_stay_well_keyed_witness :
  wellKeyed
    (run Example.env
       [Req (AddTopic (Some "coding tips") 1 1);
        Req (Generate 5 5 (1 # 2) (Resolves None));
        Req (Generate 5 6 (1 # 2) (Resolves None));
        Req (Reject "5"); Req (ToggleTopic "1"); Req (DeleteTopic "1")]
       initialState).
Proof.
  apply (stores_stay_well_keyed Example.env _ initialState).
  repeat split; constructor.
Defined.

(** X2. Over every run, every stored post keeps within the 280 characters
    of the platform: generation clips what it stores, and no other event
    writes a content. *)
Theorem stored_posts_fit_the_limit env es st :
  withinLimit st -> withinLimit (run env es st).
Proof.
  apply run_invariant. clear es st. unfold withinLimit.
  intros e st H.
  destruct (step_posts env e st) as [|id post s Hget _|now ts t content _ Hlen].
  - exact H.
  - apply Forall_values_set; [exact H|]. cbn.
    rewrite Forall_forall in H. apply H. now apply get_In_values with id.
  - now apply Forall_values_set.
Qed.

Lemma stored_posts_fit_the_limit_witness :
  withinLimit
    (run Example.envWithKey
       [Req (AddTopic (Some "coding tips") 1 1);
        Req (Generate 5 5 (1 # 2) (Resolves (Some "short text")));
        Req (Approve "5" (Tweeted "1900"))]
       initialState).
Proof.
  apply (stored_posts_fit_the_limit Example.envWithKey _ initialState).
  constructor.
Defined.

(** X3. When any of the four X credentials is missing, no run ever turns a
    post approved: approve then fails before the store is written. *)
Theorem no_approval_without_credentials env es st :
  createTwitterClient env = false ->
  noneApproved st -> noneApproved (run env es st).
Proof.
  intros Hc. apply run_invariant. clear es st. unfold noneApproved.
  intros e st H.
  destruct (step_posts env e st) as [|id post s Hget Hs|now ts t content _ _].
  - exact H.
  - apply Forall_values_set; [exact H|]. cbn.
    destruct Hs as [->|[_ Hc']]; [discriminate|congruence].
  - apply Forall_values_set; [exact H|]. discriminate.
Qed.

Lemma no_approval_without_credentials_witness :
  noneApproved
    (run {| OPENROUTER_API_KEY := None; TWITTER_APP_KEY := Some "key";
            TWITTER_APP_SECRET := Some "secret"; TWITTER_ACCESS_TOKEN := None;
            TWITTER_ACCESS_SECRET := Some "access"; zoneOffset := Example.utcOnly;
            localTZA := fun _ _ => 0 |}
       [Req (Approve "5" (Tweeted "1900")); Req (Reject "5");
        Req (Approve "5" (Tweeted "1901"))]
       Example.withPost).
Proof.
  apply no_approval_without_credentials; [reflexivity|].
  repeat constructor. discriminate.
Defined.

(** X4. No event removes a post: an id that is stored stays stored over
    every run. *)
Theorem stored_ids_persist env es st id :
  In id (keys (pendingPosts st)) ->
  In id (keys (pendingPosts (run env es st))).
Proof.
  revert st. apply (run_invariant env (fun st => In id (keys (pendingPosts st)))).
  intros e st H.
  destruct (step_posts env e st); [exact H| |]; apply In_keys_set; now right.
Qed.

Lemma stored_ids_persist_witness :
  In "5"
    (keys (pendingPosts
             (run Example.env
                [Req (Reject "5"); Req (Generate 5 9 (1 # 2) (Resolves None));
                 Req (DeleteTopic "1")]
                Example.withPost))).
Proof.
  apply (stored_ids_persist Example.env _ Example.withPost "5").
  left. reflexivity.
Defined.

Lemma stampsId_stampOf id e now :
  stampsId id e = false -> stampOf e = Some now -> JS.toString now <> id.
Proof.
  destruct e as [[]|]; cbn; try discriminate;
    intros H [= ->]; now apply String.eqb_neq.
Qed.

(** X5. Over every run in which no generation is stamped with the id of a
    stored post, that post stays stored with the content, topic, time stamp
    and id it has: only its status may differ. *)
Theorem stored_post_keeps_its_text env es st id post :
  JS.Map.get id (pendingPosts st) = Some post ->
  existsb (stampsId id) es = false ->
  exists s,
    JS.Map.get id (pendingPosts (run env es st))
    = Some (PendingPost.with_status s post).
Proof.
  intros Hget Hes.
  assert (exists s, JS.Map.get id (pendingPosts st)
                    = Some (PendingPost.with_status s post)) as H.
  { exists (PendingPost.status post). rewrite Hget. now destruct post. }
  clear Hget. revert st H. unfold run.
  induction es as [|e es IH]; intros st H; cbn [fold_left]; [exact H|].
  cbn [existsb] in Hes. apply orb_false_iff in Hes as [He Hes].
  apply IH; [exact Hes|]. destruct H as [s H].
  destruct (step_posts env e st) as [|id' post' s' Hget' _|now ts t content Hs _].
  - now exists s.
  - destruct (String.eqb_spec id id') as [<-|ne].
    + exists s'. rewrite get_set_same. rewrite H in Hget'.
      injection Hget' as <-. reflexivity.
    + exists s. now rewrite get_set_other.
  - exists s. rewrite get_set_other; [exact H|].
    intros E. now apply (stampsId_stampOf id e now He Hs).
Qed.

Lemma stored_post_keeps_its_text_witness :
  exists s,
    JS.Map.get "5"
      (pendingPosts
         (run Example.env
            [Req (Approve "5" (Tweeted "1900")); Req (Reject "5");
             Req (Generate 6 6 (1 # 2) (Resolves None))]
            Example.withPost))
    = Some (PendingPost.with_status s
              (newPost 5 5
                 {| Topic.id := "1"; Topic.name := "coding tips";
                    Topic.createdAt := 1; Topic.isActive := true |}
                 (fallbackText "coding tips"))).
Proof.
  apply (stored_post_keeps_its_text Example.env _ Example.withPost "5");
    reflexivity.
Defined.

(* ===================================================================== *)
(** * The scheduler over whole runs *)
(* ===================================================================== *)

Lemma handle_frame env r st :
  (forall f t z now, r <> UpdateSchedule f t z now) ->
  let st' := snd (handle env r st) in
  schedule st' = schedule st /\ scheduleInterval st' = scheduleInterval st
  /\ timers st' = timers st /\ nextHandle st' = nextHandle st.
Proof.
  intros Hr. cbv zeta. destruct r; cbn [handle];
    try (repeat split; reflexivity).
  - unfold post_api_topics. destruct name as [s|]; [|repeat split; reflexivity].
    destruct (JS.truthy s); repeat split; reflexivity.
  - unfold post_api_topics_toggle.
    destruct (JS.truthy id); [|repeat split; reflexivity].
    cbn. destruct (JS.Map.get id (topics st)); repeat split; reflexivity.
  - unfold delete_api_topics.
    destruct (JS.truthy id); [|repeat split; reflexivity].
    cbn. destruct (JS.Map.has id (topics st)); repeat split; reflexivity.
  - now elim (Hr frequency time timezone now).
  - unfold post_api_posts_approve.
    destruct (JS.truthy id); [|repeat split; reflexivity].
    cbn. destruct (JS.Map.get id (pendingPosts st)); [|repeat split; reflexivity].
    destruct (postToX env reply); repeat split; reflexivity.
  - unfold post_api_posts_reject.
    destruct (JS.truthy id); [|repeat split; reflexivity].
    cbn. destruct (JS.Map.get id (pendingPosts st)); repeat split; reflexivity.
  - unfold post_api_generate_post.
    destruct (generateFrom env now ts rnd reply st) as [[[post st']|]|err] eqn:E;
      try (repeat split; reflexivity).
    apply generateFrom_new in E as [t [content [_ [_ [_ ->]]]]].
    repeat split; reflexivity.
Qed.

Lemma setupRecurringSchedule_schedule now st :
  schedule (setupRecurringSchedule now st) = schedule st.
Proof.
  unfold setupRecurringSchedule.
  destruct (Schedule.isActive (schedule st)); reflexivity.
Qed.

Lemma step_isActive env e st :
  Schedule.isActive (schedule (step env e st)) = Schedule.isActive (schedule st).
Proof.
  destruct e as [r|h now ts rnd reply]; cbn [step].
  - destruct r;
      try (match goal with
           | |- context [handle env ?r st] =>
               destruct (handle_frame env r st) as [-> _];
               [intros ? ? ? ?; discriminate|reflexivity]
           end).
    cbn [handle]. unfold post_api_schedule.
    destruct frequency as [f|]; [|reflexivity].
    destruct time as [t|]; [|reflexivity].
    destruct timezone as [z|]; [|reflexivity].
    destruct (JS.truthy f && JS.truthy t && JS.truthy z); [|reflexivity].
    cbn [negb].
    match goal with
    | |- context [startScheduler env now ?s] =>
        destruct (startScheduler_topics env now s) as [_ Hs];
        destruct (startScheduler env now s) as [st1 [err|]]
    end; cbn in *; now rewrite Hs.
  - unfold fire. destruct (find _ (timers st)) as [t|]; [|reflexivity].
    destruct (Timer.what t).
    + destruct (generateScheduledPost_frame env now ts rnd reply (dropTimer h st))
        as [_ [Hs _]].
      rewrite setupRecurringSchedule_schedule. now rewrite Hs.
    + destruct (generateScheduledPost_frame env now ts rnd reply st) as [_ [Hs _]].
      now rewrite Hs.
Qed.

(** X6. No request and no timer writes [schedule.isActive]: over every run
    the flag is what it was, so a scheduler that starts enabled stays
    enabled whatever is posted to [/api/schedule]. *)
Theorem scheduler_flag_is_never_written env es st :
  Schedule.isActive (schedule (run env es st)) = Schedule.isActive (schedule st).
Proof.
  revert st. unfold run.
  induction es as [|e es IH]; intros st; cbn [fold_left]; [reflexivity|].
  rewrite IH. apply step_isActive.
Qed.

Lemma NoDup_map_filter {A B : Type} (f : A -> B) (p : A -> bool) (l : list A) :
  NoDup (List.map f l) -> NoDup (List.map f (filter p l)).
Proof.
  induction l as [|a l IH]; simpl; intros H; [constructor|].
  inversion H as [|? ? Hnotin Hnd]; subst.
  destruct (p a); simpl; [|now apply IH].
  constructor; [|now apply IH].
  intros Hin. apply Hnotin. apply in_map_iff in Hin as [x [E Hx]].
  apply in_map_iff. exists x. split; [exact E|].
  now apply filter_In in Hx as [Hx _].
Qed.

Lemma timersFresh_dropTimer h st : timersFresh st -> timersFresh (dropTimer h st).
Proof.
  intros [Hnd Hlt]. split; cbn.
  - now apply NoDup_map_filter.
  - rewrite Forall_forall in *. intros t Ht.
    apply filter_In in Ht as [Ht _]. now apply Hlt.
Qed.

Lemma timersFresh_arm what now delay st :
  timersFresh st -> timersFresh (snd (arm what now delay st)).
Proof.
  intros [Hnd Hlt]. split; cbn.
  - rewrite map_app. cbn.
    apply Permutation_NoDup with (nextHandle st :: List.map Timer.handle (timers st)).
    + apply Permutation_cons_append.
    + constructor; [|exact Hnd]. intros Hin.
      apply in_map_iff in Hin as [t [E Ht]]. rewrite Forall_forall in Hlt.
      specialize (Hlt t Ht). lia.
  - apply Forall_app. split.
    + rewrite Forall_forall in *. intros t Ht. specialize (Hlt t Ht). lia.
    + constructor; [cbn; lia|constructor].
Qed.

Lemma timersFresh_ext st st' :
  timers st' = timers st -> nextHandle st' = nextHandle st ->
  timersFresh st -> timersFresh st'.
Proof. unfold timersFresh. now intros -> ->. Qed.

Lemma timersFresh_startScheduler env now st :
  timersFresh st -> timersFresh (fst (startScheduler env now st)).
Proof.
  intros H.
  assert (timersFresh (cleared st)) as H1.
  { unfold cleared. destruct (scheduleInterval st); [|exact H].
    now apply timersFresh_dropTimer. }
  destruct (startScheduler_cases env now st) as [E|[[e E]|[d E]]];
    rewrite E; cbn [fst]; try exact H1.
  now apply timersFresh_arm.
Qed.

Lemma timersFresh_setupRecurringSchedule now st :
  timersFresh st -> timersFresh (setupRecurringSchedule now st).
Proof.
  intros H. unfold setupRecurringSchedule.
  destruct (Schedule.isActive (schedule st)); [|exact H].
  apply (timersFresh_arm Timer.Recurring now
           (intervalMs (Schedule.frequency (schedule st)))) in H.
  exact H.
Qed.

(** In the event loop of this model every run keeps the handles of the live
    timers pairwise distinct, each below the next handle to be handed out:
    the states the statements below assume are the ones runs reach. *)
Lemma timer_handles_stay_distinct env es st :
  timersFresh st -> timersFresh (run env es st).
Proof.
  apply run_invariant. clear es st. intros e st H.
  destruct e as [r|h now ts rnd reply]; cbn [step].
  - destruct r;
      try (match goal with
           | |- context [handle env ?r st] =>
               destruct (handle_frame env r st) as [_ [_ [Ht Hn]]];
               [intros ? ? ? ?; discriminate
               |now apply timersFresh_ext with st]
           end).
    cbn [handle]. unfold post_api_schedule.
    destruct frequency as [f|]; [|exact H].
    destruct time as [t|]; [|exact H].
    destruct timezone as [z|]; [|exact H].
    destruct (JS.truthy f && JS.truthy t && JS.truthy z); [|exact H].
    cbn [negb].
    match goal with
    | |- context [startScheduler env now ?s] =>
        pose proof (timersFresh_startScheduler env now s H) as Hs;
        destruct (startScheduler env now s) as [st1 [err|]]
    end; exact Hs.
  - unfold fire. destruct (find _ (timers st)) as [t|]; [|exact H].
    destruct (Timer.what t).
    + apply timersFresh_setupRecurringSchedule.
      destruct (generateScheduledPost_frame env now ts rnd reply (dropTimer h st))
        as [_ [_ [_ [Ht Hn]]]].
      apply timersFresh_ext with (dropTimer h st); try assumption.
      now apply timersFresh_dropTimer.
    + destruct (generateScheduledPost_frame env now ts rnd reply st)
        as [_ [_ [_ [Ht Hn]]]].
      now apply timersFresh_ext with st.
Qed.

Lemma timer_handles_stay_distinct_witness :
  timersFresh
    (run Example.env
       [Fire 0 (9 * msPerHour) (9 * msPerHour) (1 # 2) (Resolves None);
        Req (UpdateSchedule (Some "weekly") (Some "10:00") (Some "UTC") (10 * msPerHour));
        Fire 2 (34 * msPerHour) (34 * msPerHour) (1 # 2) (Resolves None)]
       Example.rescheduled).
Proof.
  apply (timer_handles_stay_distinct Example.env _ Example.rescheduled).
  split.
  - repeat constructor; cbn; intuition discriminate.
  - repeat constructor.
Defined.

Lemma filter_absent_handle h (l : list Timer.t) :
  ~ In h (List.map Timer.handle l) ->
  filter (fun t => negb (Timer.handle t =? h)%nat) l = l.
Proof.
  induction l as [|a l IH]; simpl; intros H; [reflexivity|].
  destruct (Nat.eqb_spec (Timer.handle a) h) as [E|ne]; simpl.
  - exfalso. apply H. now left.
  - rewrite IH; [reflexivity|]. intros Hin. apply H. now right.
Qed.

Lemma filter_live_handle h (l : list Timer.t) :
  NoDup (List.map Timer.handle l) ->
  In h (List.map Timer.handle l) ->
  S (List.length (filter (fun t => negb (Timer.handle t =? h)%nat) l)) = List.length l.
Proof.
  induction l as [|a l IH]; simpl; intros Hnd Hin; [contradiction|].
  inversion Hnd as [|? ? Hnotin Hnd']; subst.
  destruct (Nat.eqb_spec (Timer.handle a) h) as [E|ne]; simpl.
  - subst h. now rewrite filter_absent_handle.
  - destruct Hin as [E|Hin]; [contradiction|]. now rewrite IH.
Qed.

Lemma filter_drops_handle h (l : list Timer.t) :
  ~ In h (List.map Timer.handle (filter (fun t => negb (Timer.handle t =? h)%nat) l)).
Proof.
  intros Hin. apply in_map_iff in Hin as [t [E Ht]].
  apply filter_In in Ht as [_ Ht]. subst h. now rewrite Nat.eqb_refl in Ht.
Qed.

Lemma live_handle_below_next h st :
  timersFresh st -> In h (List.map Timer.handle (timers st)) -> (h < nextHandle st)%nat.
Proof.
  intros [_ Hlt] Hin. apply in_map_iff in Hin as [t [<- Ht]].
  rewrite Forall_forall in Hlt. now apply Hlt.
Qed.

Lemma orDefault_in_range h d bound :
  0 <= h < bound -> 0 <= d < bound ->
  0 <= JS.orDefault (Some (JS.Num h)) d < bound.
Proof. unfold JS.orDefault. destruct (h =? 0); lia. Qed.

(** X8. When the recurring interval that [scheduleInterval] refers to is
    live, a schedule update with a non-empty frequency, a time that parses
    to an hour below 24 and a minute below 60, and a zone the host knows
    succeeds, cancels that interval and arms one first-run timeout in its
    place: the number of live timers is what it was.  (On a host whose own
    zone keeps one offset, at a wall-clock reading with a four-digit
    year.) *)
Theorem schedule_update_replaces_recurring env c f t z now st h wall hh mm :
  f <> "" -> t <> "" -> z <> "" ->
  Schedule.isActive (schedule st) = true ->
  fixedOffsetHost env c ->
  userTimeAt env z now = Some wall ->
  fourDigitYear wall ->
  parseTime t = (Some (JS.Num hh), Some (JS.Num mm)) ->
  0 <= hh < 24 -> 0 <= mm < 60 ->
  scheduleInterval st = Some h ->
  In h (List.map Timer.handle (timers st)) ->
  timersFresh st ->
  let st' := snd (post_api_schedule env (Some f) (Some t) (Some z) now st) in
  fst (post_api_schedule env (Some f) (Some t) (Some z) now st)
  = SuccessSchedule
      {| Schedule.frequency := f; Schedule.time := t; Schedule.timezone := z;
         Schedule.isActive := true |}
  /\ ~ In h (List.map Timer.handle (timers st'))
  /\ List.length (timers st') = List.length (timers st)
  /\ exists new,
       timers st'
       = (filter (fun x => negb (Timer.handle x =? h)%nat) (timers st) ++ [new])%list
       /\ Timer.what new = Timer.FirstRun
       /\ Timer.armedAt new = now
       /\ Timer.delay new = nextRunAt t wall - wall
       /\ 0 < Timer.delay new <= msPerDay.
Proof.
  intros Hf Ht Hz on Hhost Hu Hw Hp Hhh Hmm Hh Hlive Hfresh. cbv zeta.
  apply truthy_true_iff in Hf, Ht, Hz.
  unfold post_api_schedule. rewrite Hf, Ht, Hz, on. cbn [andb negb].
  set (st0 := set_schedule _ st).
  assert (0 <= JS.orDefault (fst (parseTime (Schedule.time (schedule st0)))) 9 < 24)
    as Hh9
    by (change (Schedule.time (schedule st0)) with t; rewrite Hp;
        apply orDefault_in_range; lia).
  assert (0 <= JS.orDefault (snd (parseTime (Schedule.time (schedule st0)))) 0 < 60)
    as Hm0
    by (change (Schedule.time (schedule st0)) with t; rewrite Hp;
        apply orDefault_in_range; lia).
  destruct (startScheduler_timers env c now st0 wall) as [Htim [_ [Hsch Hnone]]];
    try assumption; try reflexivity.
  pose proof (nextRunAt_window t wall Hh9 Hm0) as Hwin.
  destruct (startScheduler env now st0) as [st1 err]. cbn in *. subst err.
  cbn [fst snd]. rewrite Hsch.
  assert (survivors st0
          = filter (fun x => negb (Timer.handle x =? h)%nat) (timers st)) as Hsurv
    by (unfold survivors, st0; cbn; now rewrite Hh).
  rewrite Htim, Hsurv.
  split; [reflexivity|]. split; [|split].
  - rewrite map_app. intros Hin. apply in_app_or in Hin as [Hin|Hin].
    + now apply filter_drops_handle in Hin.
    + cbn in Hin. destruct Hin as [E|[]].
      pose proof (live_handle_below_next h st Hfresh Hlive). lia.
  - rewrite length_app. cbn [List.length].
    destruct Hfresh as [Hnd _].
    pose proof (filter_live_handle h (timers st) Hnd Hlive). lia.
  - eexists. split; [reflexivity|]. cbn.
    split; [reflexivity|]. split; [reflexivity|]. split; [reflexivity|lia].
Qed.

Lemma schedule_update_replaces_recurring_witness :
  let recurring :=
    run Example.env [Fire 0 (9 * msPerHour) (9 * msPerHour) (1 # 2) (Resolves None)]
      Example.started in
  let st' :=
    snd (post_api_schedule Example.env (Some "weekly") (Some "10:00") (Some "UTC")
           (10 * msPerHour) recurring) in
  ~ In 1%nat (List.map Timer.handle (timers st'))
  /\ List.length (timers st') = List.length (timers recurring).
Proof.
  intros recurring st'.
  destruct (schedule_update_replaces_recurring Example.env 0 "weekly" "10:00" "UTC"
              (10 * msPerHour) recurring 1%nat (10 * msPerHour) 10 0)
    as [_ [H1 [H2 _]]]; try reflexivity; try discriminate.
  - split; [discriminate|]. intros t isUTC. reflexivity.
  - split; [discriminate|reflexivity].
  - split; [discriminate|reflexivity].
  - split; [discriminate|reflexivity].
  - left. reflexivity.
  - split; repeat constructor. exact (fun H => H).
  - split; assumption.
Defined.

Lemma effectiveDelay_intervalMs f :
  effectiveDelay (intervalMs f)
  = if (f =? "weekly")%string then 7 * msPerDay
    else if (f =? "monthly")%string then 1 else msPerDay.
Proof.
  unfold intervalMs.
  destruct (String.eqb_spec f "daily") as [->|n1]; [reflexivity|].
  destruct (String.eqb_spec f "weekly") as [->|n2]; [reflexivity|].
  destruct (String.eqb_spec f "monthly") as [->|n3]; reflexivity.
Qed.

(** X9. When a live first-run timeout comes due on an enabled schedule, it
    is spent, one recurring interval is armed, and [scheduleInterval] refers
    to that interval.  The interval runs every 7 days for the frequency
    weekly and every 24 hours for daily and for any unknown frequency; for
    monthly the 30 days handed to [setInterval] exceed the 2^31 - 1
    milliseconds a Node timer can hold, and the interval runs every
    millisecond. *)
Theorem first_run_sets_up_recurring env h now ts rnd reply st t :
  find (fun x => (Timer.handle x =? h)%nat) (timers st) = Some t ->
  Timer.what t = Timer.FirstRun ->
  Schedule.isActive (schedule st) = true ->
  timersFresh st ->
  let st' := fire env h now ts rnd reply st in
  timers st'
  = (filter (fun x => negb (Timer.handle x =? h)%nat) (timers st)
     ++ [{| Timer.handle := nextHandle st; Timer.what := Timer.Recurring;
            Timer.armedAt := now;
            Timer.delay :=
              if (Schedule.frequency (schedule st) =? "weekly")%string
              then 7 * msPerDay
              else if (Schedule.frequency (schedule st) =? "monthly")%string
                   then 1 else msPerDay |}])%list
  /\ scheduleInterval st' = Some (nextHandle st)
  /\ ~ In h (List.map Timer.handle (timers st')).
Proof.
  intros Hfind Hwhat on Hfresh. cbv zeta.
  unfold fire. rewrite Hfind, Hwhat.
  destruct (generateScheduledPost_frame env now ts rnd reply (dropTimer h st))
    as [_ [Hs [_ [Ht Hn]]]].
  cbv zeta. unfold setupRecurringSchedule. rewrite Hs.
  cbn [dropTimer set_timers schedule].
  rewrite on. cbn. rewrite Ht, Hn. cbn.
  rewrite effectiveDelay_intervalMs.
  split; [reflexivity|]. split; [reflexivity|].
  rewrite map_app. intros Hin. apply in_app_or in Hin as [Hin|Hin].
  - now apply filter_drops_handle in Hin.
  - cbn in Hin. destruct Hin as [E|[]].
    apply find_some in Hfind as [Hin Hh]. apply Nat.eqb_eq in Hh.
    assert (In h (List.map Timer.handle (timers st))) as Hlive
      by (rewrite <- Hh; now apply in_map).
    pose proof (live_handle_below_next h st Hfresh Hlive). lia.
Qed.

Lemma first_run_sets_up_recurring_witness :
  let monthly :=
    snd (post_api_schedule Example.env (Some "monthly") (Some "09:00") (Some "UTC")
           msPerHour initialState) in
  let st' :=
    fire Example.env 0 (9 * msPerHour) (9 * msPerHour) (1 # 2) (Resolves None)
      monthly in
  List.map due (timers st') = [(Timer.Recurring, 9 * msPerHour + 1)]
  /\ scheduleInterval st' = Some 1%nat
  /\ ~ In 0%nat (List.map Timer.handle (timers st')).
Proof.
  intros monthly st'.
  destruct (first_run_sets_up_recurring Example.env 0 (9 * msPerHour)
              (9 * msPerHour) (1 # 2) (Resolves None) monthly
              {| Timer.handle := 0; Timer.what := Timer.FirstRun;
                 Timer.armedAt := msPerHour; Timer.delay := 8 * msPerHour |})
    as [H1 [H2 H3]]; try reflexivity.
  - split; repeat constructor. exact (fun H => H).
  - fold st' in H1, H2, H3. rewrite H1. repeat split; assumption.
Defined.

Lemma startScheduler_unknown_zone env now st :
  Schedule.isActive (schedule st) = true ->
  zoneOffset env (Schedule.timezone (schedule st)) now = None ->
  (exists e, snd (startScheduler env now st) = Some e)
  /\ schedule (fst (startScheduler env now st)) = schedule st
  /\ timers (fst (startScheduler env now st)) = survivors st
  /\ nextHandle (fst (startScheduler env now st)) = nextHandle st.
Proof.
  intros on Hzone. unfold startScheduler, userTimeAt, survivors.
  destruct (scheduleInterval st) as [h|]; cbn; rewrite on, Hzone; cbn;
    (split; [eexists; reflexivity|repeat split]).
Qed.

(** X10. A schedule update naming a zone the host does not know fails, and
    is not rolled back: the new frequency, time and zone are stored, the
    interval [scheduleInterval] refers to is cancelled, and no timer is
    armed. *)
Theorem schedule_update_unknown_zone env f t z now st :
  f <> "" -> t <> "" -> z <> "" ->
  Schedule.isActive (schedule st) = true ->
  zoneOffset env z now = None ->
  let st' := snd (post_api_schedule env (Some f) (Some t) (Some z) now st) in
  (exists msg,
     fst (post_api_schedule env (Some f) (Some t) (Some z) now st) = Failure msg)
  /\ schedule st'
     = {| Schedule.frequency := f; Schedule.time := t; Schedule.timezone := z;
          Schedule.isActive := true |}
  /\ timers st' = survivors st
  /\ nextHandle st' = nextHandle st.
Proof.
  intros Hf Ht Hz on Hzone. cbv zeta.
  apply truthy_true_iff in Hf, Ht, Hz.
  unfold post_api_schedule. rewrite Hf, Ht, Hz, on. cbn [andb negb].
  set (st0 := set_schedule _ st).
  destruct (startScheduler_unknown_zone env now st0) as [[e He] [Hs [Htim Hn]]];
    [reflexivity | exact Hzone |].
  destruct (startScheduler env now st0) as [st1 err]. cbn in *. subst err.
  cbn [fst snd]. split; [eexists; reflexivity|].
  split; [exact Hs|]. split; [exact Htim|exact Hn].
Qed.

Lemma schedule_update_unknown_zone_witness :
  let st' :=
    snd (post_api_schedule Example.env (Some "daily") (Some "10:00")
           (Some "Mars/Olympus") msPerHour initialState) in
  (exists msg,
     fst (post_api_schedule Example.env (Some "daily") (Some "10:00")
            (Some "Mars/Olympus") msPerHour initialState) = Failure msg)
  /\ Schedule.timezone (schedule st') = "Mars/Olympus"
  /\ timers st' = [].
Proof.
  intros st'.
  destruct (schedule_update_unknown_zone Example.env "daily" "10:00" "Mars/Olympus"
              msPerHour initialState) as [H1 [H2 [H3 _]]];
    try reflexivity; try discriminate.
  fold st' in H2, H3. rewrite H2. repeat split; assumption.
Defined.

Lemma nextRunAt_honours_nonzero_hour_witness :
  getHours (nextRunAt "18:45" (20 * msPerHour)) = 18
  /\ getMinutes (nextRunAt "18:45" (20 * msPerHour)) = 45
  /\ 20 * msPerHour < nextRunAt "18:45" (20 * msPerHour) <= 20 * msPerHour + msPerDay.
Proof.
  apply (nextRunAt_honours_nonzero_hour "18:45" (20 * msPerHour) 18 45);
    [reflexivity | lia | lia].
Defined.

(** X24. For an active schedule whose time parses to an hour from 1 to 23
    and to a minute from 0 to 59, in a known zone, [startScheduler] arms one
    first-run timeout whose delay leads from the zone's wall-clock reading
    to the next reading with that hour and minute, seconds and milliseconds
    0: later than the current reading and at most 24 hours later.  The delay
    is measured on a host whose own zone keeps one offset, at a wall-clock
    reading with a four-digit year. *)
Theorem first_run_honours_nonzero_hour env c now st wall h m :
  Schedule.isActive (schedule st) = true ->
  fixedOffsetHost env c ->
  userTimeAt env (Schedule.timezone (schedule st)) now = Some wall ->
  fourDigitYear wall ->
  parseTime (Schedule.time (schedule st)) = (Some (JS.Num h), Some (JS.Num m)) ->
  1 <= h < 24 -> 0 <= m < 60 ->
  exists t,
    timers (fst (startScheduler env now st)) = (survivors st ++ [t])%list
    /\ snd (startScheduler env now st) = None
    /\ Timer.what t = Timer.FirstRun
    /\ Timer.armedAt t = now
    /\ getHours (wall + Timer.delay t) = h
    /\ getMinutes (wall + Timer.delay t) = m
    /\ (wall + Timer.delay t) mod msPerMinute = 0
    /\ wall < wall + Timer.delay t <= wall + msPerDay.
Proof.
  intros on Hhost Hu Hw Hp Hh Hm.
  assert (JS.orDefault (fst (parseTime (Schedule.time (schedule st)))) 9 = h) as Eh
    by (rewrite Hp; apply orDefault_hours; lia).
  assert (JS.orDefault (snd (parseTime (Schedule.time (schedule st)))) 0 = m) as Em
    by (rewrite Hp; apply orDefault_minutes).
  destruct (startScheduler_aims env c now st wall on Hhost Hu Hw) as [t Ht];
    [rewrite Eh; lia | rewrite Em; exact Hm |].
  rewrite Eh, Em in Ht. now exists t.
Qed.

Lemma first_run_honours_nonzero_hour_witness :
  exists t,
    timers (fst (startScheduler Example.env (20 * msPerHour + 123) Example.rescheduled))
      = (survivors Example.rescheduled ++ [t])%list
    /\ snd (startScheduler Example.env (20 * msPerHour + 123) Example.rescheduled) = None
    /\ Timer.what t = Timer.FirstRun
    /\ Timer.armedAt t = 20 * msPerHour + 123
    /\ getHours (20 * msPerHour + Timer.delay t) = 10
    /\ getMinutes (20 * msPerHour + Timer.delay t) = 0
    /\ (20 * msPerHour + Timer.delay t) mod msPerMinute = 0
    /\ 20 * msPerHour < 20 * msPerHour + Timer.delay t <= 20 * msPerHour + msPerDay.
Proof.
  apply (first_run_honours_nonzero_hour Example.env 0 (20 * msPerHour + 123)
           Example.rescheduled (20 * msPerHour) 10 0);
    try reflexivity.
  - split; [discriminate|]. intros t isUTC. reflexivity.
  - split; [discriminate|reflexivity].
  - split; [discriminate|reflexivity].
  - split; [discriminate|reflexivity].
Defined.

(* ===================================================================== *)
(** * The list handlers *)
(* ===================================================================== *)

Section SortFacts.
Context {A : Type} (key : A -> Z).

Lemma insertDesc_perm x l : Permutation (insertDesc key x l) (x :: l).
Proof.
  induction l as [|y r IH]; simpl; [reflexivity|].
  destruct (key y <=? key x); [reflexivity|].
  rewrite IH. apply perm_swap.
Qed.

Lemma sortDesc_perm l : Permutation (sortDesc key l) l.
Proof.
  induction l as [|x r IH]; simpl; [reflexivity|].
  rewrite insertDesc_perm. now constructor.
Qed.

Lemma insertDesc_sorted x l :
  newestFirst key l -> newestFirst key (insertDesc key x l).
Proof.
  unfold newestFirst. induction l as [|y r IH]; simpl; intros H.
  - constructor; constructor.
  - apply StronglySorted_inv in H as [Hr Hy].
    destruct (Z.leb_spec (key y) (key x)) as [Hle|Hlt].
    + constructor; [now constructor|].
      constructor; [exact Hle|].
      rewrite Forall_forall in *. intros z Hz. specialize (Hy z Hz). lia.
    + constructor; [now apply IH|].
      rewrite Forall_forall in *. intros z Hz.
      apply (Permutation_in _ (insertDesc_perm x r)) in Hz as [<-|Hz];
        [lia|now apply Hy].
Qed.

Lemma sortDesc_sorted l : newestFirst key (sortDesc key l).
Proof.
  induction l as [|x r IH]; simpl; [constructor|now apply insertDesc_sorted].
Qed.

End SortFacts.

(** X11. [GET /api/posts?status=s] with a non-empty [s] lists, newest first,
    the stored posts whose status prints as [s], each as often as it is
    stored and no other, and changes nothing; for an [s] that is no status
    the list is empty. *)
Theorem list_posts_by_status s st :
  s <> "" ->
  exists l,
    get_api_posts (Some s) st = (PostList l, st)
    /\ newestFirst PendingPost.timestamp l
    /\ Permutation l
         (filter (fun post => (Status_to_string (PendingPost.status post) =? s)%string)
            (JS.Map.values (pendingPosts st)))
    /\ (forall post,
          In post l <->
          In post (JS.Map.values (pendingPosts st))
          /\ Status_to_string (PendingPost.status post) = s)
    /\ (s <> "pending" -> s <> "approved" -> s <> "rejected" -> l = []).
Proof.
  intros ne. apply truthy_true_iff in ne.
  unfold get_api_posts. rewrite ne.
  eexists. split; [reflexivity|]. split; [apply sortDesc_sorted|].
  split; [apply sortDesc_perm|].
  assert (forall post,
            In post (sortDesc PendingPost.timestamp
                       (filter (fun post =>
                                  (Status_to_string (PendingPost.status post) =? s)%string)
                          (JS.Map.values (pendingPosts st)))) <->
            In post (JS.Map.values (pendingPosts st))
            /\ Status_to_string (PendingPost.status post) = s) as Hin.
  { intros post. split.
    - intros H. apply (Permutation_in _ (sortDesc_perm _ _)) in H.
      apply filter_In in H as [H E]. now apply String.eqb_eq in E.
    - intros [H E]. apply (Permutation_in _ (Permutation_sym (sortDesc_perm _ _))).
      apply filter_In. split; [exact H|now apply String.eqb_eq]. }
  split; [exact Hin|].
  intros n1 n2 n3.
  destruct (sortDesc _ _) as [|post l]; [reflexivity|].
  destruct (proj1 (Hin post) (or_introl eq_refl)) as [_ E].
  destruct (PendingPost.status post); cbn in E; congruence.
Qed.

Lemma list_posts_by_status_witness :
  exists l,
    get_api_posts (Some "approved") Example.withApproved
    = (PostList l, Example.withApproved)
    /\ newestFirst PendingPost.timestamp l
    /\ Permutation l
         (filter (fun post =>
                    (Status_to_string (PendingPost.status post) =? "approved")%string)
            (JS.Map.values (pendingPosts Example.withApproved)))
    /\ (forall post,
          In post l <->
          In post (JS.Map.values (pendingPosts Example.withApproved))
          /\ Status_to_string (PendingPost.status post) = "approved")
    /\ ("approved" <> "pending" -> "approved" <> "approved" ->
        "approved" <> "rejected" -> l = []).
Proof.
  apply (list_posts_by_status "approved" Example.withApproved). discriminate.
Defined.

(** X12. [GET /api/posts] without a status, or with an empty one, lists
    every stored post once, newest first, and changes nothing. *)
Theorem list_posts_unfiltered st :
  exists l,
    get_api_posts None st = (PostList l, st)
    /\ get_api_posts (Some "") st = (PostList l, st)
    /\ newestFirst PendingPost.timestamp l
    /\ Permutation l (JS.Map.values (pendingPosts st)).
Proof.
  eexists. split; [reflexivity|]. split; [reflexivity|].
  split; [apply sortDesc_sorted|apply sortDesc_perm].
Qed.

(** X13. [GET /api/topics] lists every stored topic once, newest first, and
    changes nothing. *)
Theorem list_topics_newest_first st :
  exists l,
    get_api_topics st = (TopicList l, st)
    /\ newestFirst Topic.createdAt l
    /\ Permutation l (JS.Map.values (topics st)).
Proof.
  eexists. split; [reflexivity|].
  split; [apply sortDesc_sorted|apply sortDesc_perm].
Qed.

(* ===================================================================== *)
(** * Topics and generation *)
(* ===================================================================== *)

Lemma toggled_involutive t : Topic.toggled (Topic.toggled t) = t.
Proof. destruct t as [i n c a]. unfold Topic.toggled. cbn. now rewrite negb_involutive. Qed.

Lemma toggle_found id st t :
  id <> "" ->
  JS.Map.get id (topics st) = Some t ->
  post_api_topics_toggle id st
  = (SuccessTopic (Topic.toggled t),
     set_topics (JS.Map.set id (Topic.toggled t) (topics st)) st).
Proof.
  intros ne Hget. apply truthy_true_iff in ne.
  unfold post_api_topics_toggle. now rewrite ne, Hget.
Qed.

(** X14. Toggling a stored topic twice gives the topics back as they were,
    the order of the map included; the first answer carries the topic with
    its flag flipped, the second the topic as it was. *)
Theorem toggle_twice_restores id st t :
  id <> "" ->
  JS.Map.get id (topics st) = Some t ->
  let st1 := snd (post_api_topics_toggle id st) in
  fst (post_api_topics_toggle id st) = SuccessTopic (Topic.toggled t)
  /\ Topic.isActive (Topic.toggled t) = negb (Topic.isActive t)
  /\ fst (post_api_topics_toggle id st1) = SuccessTopic t
  /\ snd (post_api_topics_toggle id st1) = st.
Proof.
  intros ne Hget. cbv zeta.
  rewrite (toggle_found id st t ne Hget). cbn [fst snd].
  split; [reflexivity|]. split; [reflexivity|].
  set (st1 := set_topics _ st).
  assert (JS.Map.get id (topics st1) = Some (Topic.toggled t)) as Hget1
    by (cbn; apply get_set_same).
  rewrite (toggle_found id st1 _ ne Hget1). cbn [fst snd].
  rewrite toggled_involutive. split; [reflexivity|].
  unfold st1, set_topics. cbn. rewrite set_set, (set_get_same id t _ Hget).
  now destruct st.
Qed.

Lemma toggle_twice_restores_witness :
  let st1 := snd (post_api_topics_toggle "1" Example.withTopic) in
  activeTopics st1 = []
  /\ snd (post_api_topics_toggle "1" st1) = Example.withTopic.
Proof.
  intros st1. split; [reflexivity|].
  refine (proj2 (proj2 (proj2
            (toggle_twice_restores "1" Example.withTopic
               {| Topic.id := "1"; Topic.name := "coding tips";
                  Topic.createdAt := 1; Topic.isActive := true |} _ _))));
    [discriminate | reflexivity].
Defined.

Lemma delete_found id st :
  id <> "" ->
  JS.Map.has id (topics st) = true ->
  delete_api_topics id st
  = (Success, set_topics (JS.Map.remove id (topics st)) st).
Proof.
  intros ne Hhas. apply truthy_true_iff in ne.
  unfold delete_api_topics. now rewrite ne, Hhas.
Qed.

(** X15. Deleting a stored topic succeeds and removes exactly that topic:
    its id is no longer found, so toggling or deleting it again fails with
    ["Topic not found"], and every other id is looked up as before. *)
Theorem delete_removes_the_topic id st :
  NoDup (keys (topics st)) ->
  id <> "" ->
  JS.Map.has id (topics st) = true ->
  let st' := snd (delete_api_topics id st) in
  fst (delete_api_topics id st) = Success
  /\ JS.Map.get id (topics st') = None
  /\ (forall k, k <> id -> JS.Map.get k (topics st') = JS.Map.get k (topics st))
  /\ post_api_topics_toggle id st' = (Failure "Topic not found", st')
  /\ delete_api_topics id st' = (Failure "Topic not found", st').
Proof.
  intros Hnd ne Hhas. cbv zeta.
  rewrite (delete_found id st ne Hhas). cbn [fst snd].
  set (st' := set_topics _ st).
  assert (JS.Map.get id (topics st') = None) as Hgone
    by (cbn; now apply get_remove_same).
  split; [reflexivity|]. split; [exact Hgone|]. split.
  - intros k Hk. cbn. now apply get_remove_other.
  - apply truthy_true_iff in ne.
    unfold post_api_topics_toggle, delete_api_topics, JS.Map.has.
    rewrite ne, Hgone. cbn [negb]. split; reflexivity.
Qed.

Lemma delete_removes_the_topic_witness :
  let st' := snd (delete_api_topics "1" Example.withTopic) in
  fst (delete_api_topics "1" Example.withTopic) = Success
  /\ JS.Map.get "1" (topics st') = None
  /\ post_api_topics_toggle "1" st' = (Failure "Topic not found", st').
Proof.
  intros st'.
  destruct (delete_removes_the_topic "1" Example.withTopic)
    as [H1 [H2 [_ [H3 _]]]]; try reflexivity; try discriminate.
  - repeat constructor. exact (fun H => H).
  - repeat split; assumption.
Defined.

(** X16. A post returned by [POST /api/generate-post] is built from a stored
    topic that is active: it carries that topic's name, the status pending,
    the printed reading of [Date.now()] as id, at most 280 characters of
    content, and it is stored under its id. *)
Theorem generated_post_shape env now ts rnd reply st post st' :
  post_api_generate_post env now ts rnd reply st = (SuccessPost post, st') ->
  (exists t,
     In t (JS.Map.values (topics st)) /\ Topic.isActive t = true
     /\ PendingPost.topic post = Some (Topic.name t))
  /\ PendingPost.status post = pending
  /\ PendingPost.id post = JS.toString now
  /\ PendingPost.timestamp post = ts
  /\ (String.length (PendingPost.content post) <= 280)%nat
  /\ JS.Map.get (JS.toString now) (pendingPosts st') = Some post.
Proof.
  unfold post_api_generate_post.
  destruct (generateFrom env now ts rnd reply st) as [[[p s']|]|err] eqn:E;
    try discriminate.
  intros [= -> ->].
  apply generateFrom_new in E as [t [content [Hin [Hlen [-> ->]]]]].
  unfold activeTopics in Hin. apply filter_In in Hin as [Hin Hact].
  split; [exists t; repeat split; assumption|].
  repeat split; try assumption.
  apply (store_get (newPost now ts t content) st).
Qed.

Lemma generated_post_shape_witness :
  PendingPost.status
    (newPost 5 5
       {| Topic.id := "1"; Topic.name := "coding tips"; Topic.createdAt := 1;
          Topic.isActive := true |} (fallbackText "coding tips")) = pending
  /\ JS.Map.get (JS.toString 5) (pendingPosts Example.withPost)
     = Some (newPost 5 5
               {| Topic.id := "1"; Topic.name := "coding tips"; Topic.createdAt := 1;
                  Topic.isActive := true |} (fallbackText "coding tips")).
Proof.
  destruct (generated_post_shape Example.env 5 5 0 (Resolves None) Example.withTopic
              (newPost 5 5
                 {| Topic.id := "1"; Topic.name := "coding tips"; Topic.createdAt := 1;
                    Topic.isActive := true |} (fallbackText "coding tips"))
              Example.withPost eq_refl)
    as [_ [H1 [_ [_ [_ H2]]]]].
  split; assumption.
Defined.

(* ===================================================================== *)
(** * The command-line poster *)
(* ===================================================================== *)

Lemma tidyFrom_weaken s : tidyFrom true s = true -> tidyFrom false s = true.
Proof.
  destruct s as [|c r]; simpl; [reflexivity|].
  destruct (JS.isSpace c); [|exact id].
  rewrite andb_false_r. discriminate.
Qed.

Lemma collapseFrom_tidy b text : tidyFrom b (Cli.collapseFrom b text) = true.
Proof.
  revert b. induction text as [|c r IH]; intros b; simpl; [reflexivity|].
  destruct (JS.isSpace c) eqn:E.
  - destruct b; [apply IH|]. simpl. apply IH.
  - simpl. rewrite E. apply IH.
Qed.

Lemma trimStart_tidy s :
  tidyFrom false s = true -> tidyFrom false (JS.trimStart s) = true.
Proof.
  induction s as [|c r IH]; simpl; [reflexivity|].
  destruct (JS.isSpace c) eqn:E; [|simpl; now rewrite E].
  intros H. apply andb_prop in H as [_ H]. now apply IH, tidyFrom_weaken.
Qed.

Lemma trimEnd_tidy b s :
  tidyFrom b s = true -> tidyFrom b (JS.trimEnd s) = true.
Proof.
  revert b. induction s as [|c r IH]; intros b H; [reflexivity|].
  rewrite trimEnd_cons. simpl in H.
  destruct (JS.isSpace c) eqn:E.
  - apply andb_prop in H as [Hc Hr]. specialize (IH true Hr).
    destruct (JS.trimEnd r) as [|c' r']; [reflexivity|].
    cbn [tidyFrom]. rewrite E. now rewrite Hc.
  - specialize (IH false H).
    destruct (JS.trimEnd r) as [|c' r']; cbn [tidyFrom]; rewrite E;
      [reflexivity|exact IH].
Qed.

Lemma slice0_tidy n b s :
  tidyFrom b s = true -> tidyFrom b (JS.slice0 n s) = true.
Proof.
  unfold JS.slice0. revert b s.
  induction n as [|n IH]; intros b [|c r]; simpl; try reflexivity.
  destruct (JS.isSpace c).
  - intros H. apply andb_prop in H as [Hc Hr]. rewrite Hc. now apply IH.
  - apply IH.
Qed.

Lemma slice0_clean n s : startsClean s -> startsClean (JS.slice0 n s).
Proof. destruct n, s; simpl; auto. Qed.

Lemma normalized_clean text :
  singleSpaced (JS.trim (Cli.collapseSpaces text))
  /\ startsClean (JS.trim (Cli.collapseSpaces text)).
Proof.
  split.
  - unfold singleSpaced, JS.trim, Cli.collapseSpaces.
    apply trimEnd_tidy, trimStart_tidy, collapseFrom_tidy.
  - unfold JS.trim. apply trimEnd_clean, trimStart_clean.
Qed.

(** X17. [truncateForX] never returns more than 280 characters. *)
Theorem truncateForX_length text :
  (String.length (Cli.truncateForX text) <= 280)%nat.
Proof.
  unfold Cli.truncateForX. cbv zeta.
  destruct (Nat.ltb_spec 280 (String.length (JS.trim (Cli.collapseSpaces text))));
    [apply slice0_length|assumption].
Qed.

(** X18. What [truncateForX] returns holds no tab and no line break, no two
    spaces in a row, and no white space at its start. *)
Theorem truncateForX_single_spaced text :
  singleSpaced (Cli.truncateForX text) /\ startsClean (Cli.truncateForX text).
Proof.
  destruct (normalized_clean text) as [Ht Hc].
  unfold Cli.truncateForX. cbv zeta.
  destruct (280 <? _)%nat; [|now split].
  split; [now apply slice0_tidy|now apply slice0_clean].
Qed.

Lemma collapseFrom_fixed b s : tidyFrom b s = true -> Cli.collapseFrom b s = s.
Proof.
  revert b. induction s as [|c r IH]; intros b; simpl; [reflexivity|].
  destruct (JS.isSpace c) eqn:E.
  - intros H. apply andb_prop in H as [Hc Hr]. apply andb_prop in Hc as [Hc Hb].
    destruct b; [discriminate|].
    apply Ascii.eqb_eq in Hc. subst c. now rewrite IH.
  - intros H. now rewrite IH.
Qed.

(** X19. A text that is already single-spaced, trimmed and at most 280
    characters long passes through [truncateForX] unchanged. *)
Theorem truncateForX_fixes_clean_text text :
  singleSpaced text -> JS.trim text = text ->
  (String.length text <= 280)%nat ->
  Cli.truncateForX text = text.
Proof.
  intros Ht Htrim Hlen. unfold Cli.truncateForX, Cli.collapseSpaces. cbv zeta.
  rewrite (collapseFrom_fixed false text Ht), Htrim.
  destruct (Nat.ltb_spec 280 (String.length text)); [lia|reflexivity].
Qed.

Lemma truncateForX_fixes_clean_text_witness :
  Cli.truncateForX "Ship small changes often." = "Ship small changes often.".
Proof.
  apply truncateForX_fixes_clean_text; [reflexivity | reflexivity | cbn; lia].
Defined.

Lemma indexOf_None x args : Cli.indexOf x args = None <-> ~ In x args.
Proof.
  induction args as [|a r IH]; simpl; [tauto|].
  destruct (String.eqb_spec a x) as [->|ne].
  - split; [discriminate|]. intros H. exfalso. apply H. now left.
  - destruct (Cli.indexOf x r); simpl in *.
    + split; [discriminate|]. intros H. exfalso.
      destruct IH as [_ IH]. assert (~ In x r) as Hr by tauto.
      specialize (IH Hr). discriminate.
    + split; [|reflexivity]. intros _ [E|Hin]; [contradiction|].
      destruct IH as [IH _]. now apply IH.
Qed.

(** X20. [getRawFromArgs] returns nothing when [--raw] is not among the
    arguments; what it returns otherwise is never empty and carries no white
    space at either end. *)
Theorem getRawFromArgs_trimmed args :
  (~ In "--raw" args -> Cli.getRawFromArgs args = None)
  /\ (forall raw, Cli.getRawFromArgs args = Some raw ->
        In "--raw" args /\ raw <> "" /\ JS.trim raw = raw).
Proof.
  unfold Cli.getRawFromArgs. split.
  - intros H. apply indexOf_None in H. now rewrite H.
  - intros raw. destruct (Cli.indexOf "--raw" args) as [idx|] eqn:E; [|discriminate].
    destruct (JS.truthy _) eqn:Et; [|discriminate].
    intros [= <-]. split; [|split].
    + destruct (in_dec string_dec "--raw" args) as [Hin|Hout]; [exact Hin|].
      apply indexOf_None in Hout. congruence.
    + now apply truthy_true_iff.
    + apply trim_idempotent.
Qed.

Lemma getRawFromArgs_trimmed_witness :
  Cli.getRawFromArgs ["coding"; "tips"] = None
  /\ (In "--raw" ["--raw"; "  hello"; "world  "]
      /\ "hello world" <> "" /\ JS.trim "hello world" = "hello world").
Proof.
  split.
  - refine (proj1 (getRawFromArgs_trimmed ["coding"; "tips"]) _).
    cbn. intuition discriminate.
  - refine (proj2 (getRawFromArgs_trimmed ["--raw"; "  hello"; "world  "])
              "hello world" _).
    reflexivity.
Defined.

Lemma cli_generatePost_truncated env reply topic text :
  Cli.generatePost env reply topic = Returns text ->
  exists x, text = Cli.truncateForX x.
Proof.
  unfold Cli.generatePost. destruct (negb (openRouterClient env)).
  - intros [= <-]. eauto.
  - destruct reply as [e|c]; [discriminate|]. intros [= <-]. eauto.
Qed.

(** X21. Whatever [main] sends to X is the prepared text, is not empty, is
    at most 280 characters long and single-spaced; and nothing is sent
    unless all four credentials are set. *)
Theorem main_sends_bounded env args completion tweet text status id :
  Cli.main env args completion tweet = Cli.Finished text (Some (Cli.Sent status id)) ->
  status = text /\ text <> ""
  /\ (String.length text <= 280)%nat
  /\ singleSpaced text
  /\ createTwitterClient env = true
  /\ tweet = Tweeted id.
Proof.
  unfold Cli.main. cbv zeta.
  set (fromTopic := Cli.generatePost env completion _).
  assert (forall prepared,
            (prepared = fromTopic \/ exists raw, prepared = Returns (Cli.truncateForX raw)) ->
            forall t, prepared = Returns t -> exists x, t = Cli.truncateForX x) as Hprep.
  { intros prepared [->|[raw ->]] t Ht.
    - now apply cli_generatePost_truncated in Ht.
    - injection Ht as <-. eauto. }
  match goal with
  | |- match ?p with _ => _ end = _ -> _ =>
      assert (p = fromTopic \/ exists raw, p = Returns (Cli.truncateForX raw)) as Hp;
      [|specialize (Hprep _ Hp); destruct p as [t|e]; [|discriminate]]
  end.
  { destruct (Cli.getRawFromArgs args) as [raw|]; [|now left].
    destruct (JS.truthy raw); [right; eauto|now left]. }
  destruct (Hprep t eq_refl) as [x ->].
  destruct (JS.truthy (Cli.truncateForX x)) eqn:Et; [|discriminate].
  unfold Cli.postToX. destruct (createTwitterClient env); cbn [negb]; [|discriminate].
  destruct tweet as [i|e]; [|discriminate].
  intros [= <- <- <-].
  split; [reflexivity|]. split; [now apply truthy_true_iff|].
  destruct (normalized_clean x) as [Hx _].
  unfold Cli.truncateForX. cbv zeta.
  destruct (Nat.ltb_spec 280 (String.length (JS.trim (Cli.collapseSpaces x)))).
  - split; [apply slice0_length|]. split; [now apply slice0_tidy|]. split; reflexivity.
  - split; [assumption|]. split; [exact Hx|]. split; reflexivity.
Qed.

Lemma main_sends_bounded_witness :
  "hello world" = "hello world" /\ "hello world" <> ""
  /\ (String.length "hello world" <= 280)%nat
  /\ singleSpaced "hello world"
  /\ createTwitterClient Example.env = true
  /\ Tweeted "1900" = Tweeted "1900".
Proof.
  apply (main_sends_bounded Example.env ["--raw"; "  hello"; "world  "]
           (Resolves None) (Tweeted "1900") "hello world" "hello world" "1900").
  reflexivity.
Defined.

Lemma getRawFromArgs_truthy args raw :
  Cli.getRawFromArgs args = Some raw -> JS.truthy raw = true.
Proof.
  unfold Cli.getRawFromArgs.
  destruct (Cli.indexOf "--raw" args); [|discriminate].
  destruct (JS.truthy _) eqn:Et; [|discriminate]. now intros [= <-].
Qed.

(** X22. With a [--raw] text among the arguments, [main] does not consult
    the completion backend: its outcome is the same whatever the backend
    would answer, and the text it prepares is [truncateForX] of that raw
    text. *)
Theorem main_raw_bypasses_generator env args raw completion completion' tweet :
  Cli.getRawFromArgs args = Some raw ->
  Cli.main env args completion tweet = Cli.main env args completion' tweet
  /\ forall text posting,
       Cli.main env args completion tweet = Cli.Finished text posting ->
       text = Cli.truncateForX raw.
Proof.
  intros Hraw.
  pose proof (getRawFromArgs_truthy args raw Hraw) as Ht.
  unfold Cli.main. cbv zeta. rewrite Hraw, Ht.
  split; [reflexivity|].
  intros text posting.
  destruct (JS.truthy (Cli.truncateForX raw)).
  - destruct (Cli.postToX env _ tweet); [|discriminate]. now intros [= <- _].
  - now intros [= <- _].
Qed.

Lemma main_raw_bypasses_generator_witness :
  Cli.main Example.envWithKey ["--raw"; "  hello"; "world  "]
    (Rejects (JS.Error "503 Service Unavailable")) (Tweeted "1900")
  = Cli.main Example.envWithKey ["--raw"; "  hello"; "world  "]
      (Resolves (Some "other text")) (Tweeted "1900").
Proof.
  refine (proj1 (main_raw_bypasses_generator Example.envWithKey
                   ["--raw"; "  hello"; "world  "] "hello world"
                   (Rejects (JS.Error "503 Service Unavailable"))
                   (Resolves (Some "other text")) (Tweeted "1900") _)).
  reflexivity.
Defined.

(* ===================================================================== *)
(** * The stand-alone scheduler script *)
(* ===================================================================== *)

(** X23. For every reading of [Math.random()], which lies in [[0, 1)],
    [getRandomTopic] returns one of the five [TOPICS], never [undefined]. *)
Theorem getRandomTopic_in_TOPICS rnd :
  (0 <= rnd)%Q -> (rnd < 1)%Q ->
  exists topic, Script.getRandomTopic rnd = Some topic /\ In topic Script.TOPICS.
Proof.
  intros lo hi. unfold Script.getRandomTopic.
  apply at_in_range. apply randomIndex_range; [exact lo|exact hi|cbn; lia].
Qed.

Lemma getRandomTopic_in_TOPICS_witness :
  exists topic,
    Script.getRandomTopic (999 # 1000) = Some topic /\ In topic Script.TOPICS.
Proof.
  apply (getRandomTopic_in_TOPICS (999 # 1000)); [discriminate|reflexivity].
Defined.
